(** * The mediasoup signalling server of server.js

    A shallow embedding of the socket.io handlers of [server.js]
    ([join-room], [connect-transport], [produce], [consume],
    [resume-consumer], [get-producers], [disconnect]), of the helper
    functions they share and of the callbacks they register with the
    media engine, followed by the properties of the room registry that
    are checked against it.

    Modelling conventions.
    - The registry [rooms] and the per-room and per-peer collections are
      ES2015 [Map]s, which iterate in insertion order; they are
      association lists here ([JsMap]).
    - Room ids, peer ids, socket ids and the ids that the engine hands
      out are strings; [!x] holds of the empty string only.  A request
      carries an object as its payload; a missing acknowledgment function
      is [callback = false], a missing [dtlsParameters] is [None].
    - A peer is a JavaScript object that is mutated in place after it has
      been stored in its room; [p_ref] stands for the identity of that
      object and in-place mutation is [update_peer].  A room object is
      reached through the registry entry under its id ([update_room]).
    - mediasoup is not part of the program.  Every call into it is logged
      as an effect, and its outcome (a value or a thrown error) is an
      argument of the handler that makes the call, so that a statement
      about all arguments is a statement about every behaviour of the
      engine.  The callbacks that the handlers register with the engine
      are events of their own.
    - What a handler does to the outside is a log of effects in the order
      of the calls: acknowledgments, emissions to a socket.io room, calls
      into the engine.  Who is in a socket.io room is not modelled.
    - A handler runs to completion: no other handler is interleaved at
      its [await]s. *)

From Stdlib Require Import String List Bool Arith NArith Lia Permutation.
Import ListNotations.
Open Scope string_scope.
Open Scope list_scope.

(** ** Insertion-ordered maps with string keys *)

Module JsMap.

Definition t (V : Type) : Type := list (string * V).

Definition empty {V : Type} : t V := [].

Fixpoint get {V : Type} (k : string) (m : t V) : option V :=
  match m with
  | [] => None
  | (k', v) :: m' => if String.eqb k k' then Some v else get k m'
  end.

Definition has {V : Type} (k : string) (m : t V) : bool :=
  match get k m with Some _ => true | None => false end.

(** [m.set(k, v)]: an existing key keeps its position, a new key goes
    to the end. *)
Fixpoint set {V : Type} (k : string) (v : V) (m : t V) : t V :=
  match m with
  | [] => [(k, v)]
  | (k', v') :: m' =>
      if String.eqb k k' then (k, v) :: m' else (k', v') :: set k v m'
  end.

Definition delete {V : Type} (k : string) (m : t V) : t V :=
  filter (fun kv => negb (String.eqb k (fst kv))) m.

Definition keys {V : Type} (m : t V) : list string := map fst m.

Definition values {V : Type} (m : t V) : list V := map snd m.

Definition size {V : Type} (m : t V) : nat := length m.

(** [for (const [k, v] of m)] with the value replaced by [f k v]. *)
Definition map_values {V W : Type} (f : V -> W) (m : t V) : t W :=
  map (fun kv => (fst kv, f (snd kv))) m.

End JsMap.

(** ** Values handed out by the media engine *)

(** The result of a call that may throw; [Throw] carries [error.message]. *)
Inductive result (A : Type) : Type :=
| Ok (a : A)
| Throw (message : string).
Arguments Ok {A} a.
Arguments Throw {A} message.

Record router : Type := mkRouter {
  r_id : string;
  rtpCapabilities : string
}.

Record transport : Type := mkTransport {
  t_id : string;
  iceParameters : string;
  iceCandidates : string;
  dtlsParameters : string;
  sctpParameters : string
}.

Record producer : Type := mkProducer {
  pr_id : string;
  pr_kind : string
}.

Record consumer : Type := mkConsumer {
  c_id : string;
  c_producerId : string;
  c_kind : string;
  c_rtpParameters : string
}.

(** ** The registry *)

Record peer : Type := mkPeer {
  p_ref : nat;
  p_id : string;
  p_socket : string;
  transports : JsMap.t transport;
  producers : JsMap.t producer;
  consumers : JsMap.t consumer
}.

Record room : Type := mkRoom {
  rm_router : router;
  peers : JsMap.t peer
}.

Record state : Type := mkState {
  rooms : JsMap.t room;
  next_ref : nat
}.

Definition initial : state := {| rooms := JsMap.empty; next_ref := 0 |}.

(** ** Replies, emissions and the log of effects *)

Record transport_info : Type := mkTransportInfo {
  ti_id : string;
  ti_iceParameters : string;
  ti_iceCandidates : string;
  ti_dtlsParameters : string;
  ti_sctpParameters : string
}.

Definition describe (t : transport) : transport_info :=
  {| ti_id := t_id t;
     ti_iceParameters := iceParameters t;
     ti_iceCandidates := iceCandidates t;
     ti_dtlsParameters := dtlsParameters t;
     ti_sctpParameters := sctpParameters t |}.

Record producer_info : Type := mkProducerInfo {
  pi_peerId : string;
  pi_producerId : string;
  pi_kind : string
}.

(** The argument of the acknowledgment callback. *)
Inductive reply : Type :=
| RError (error : string)
| RJoined (sendTransport recvTransport : transport_info)
          (routerRtpCapabilities : string)
| RSuccess
| RProduced (id : string)
| RConsumed (id producerId kind rtpParameters : string)
| RProducers (l : list producer_info).

Inductive emission : Type :=
| PeerJoined (peerId : string)
| NewProducer (peerId producerId kind : string)
| PeerLeft (peerId : string).

Inductive engine_call : Type :=
| CreateRouter
| CreateWebRtcTransport (routerId : string) (initialAvailableOutgoingBitrate : N)
| SetMaxIncomingBitrate (transportId : string) (bitrate : N)
| TransportConnect (transportId : string) (dtls : string)
| TransportProduce (transportId kind rtpParameters : string)
| CanConsume (routerId producerId rtpCapabilities : string)
| TransportConsume (transportId producerId rtpCapabilities : string)
                   (paused : bool)
| ConsumerResume (consumerId : string)
| TransportClose (transportId : string)
| ProducerClose (producerId : string)
| ConsumerClose (consumerId : string)
| RouterClose (routerId : string).

Inductive effect : Type :=
| Ack (r : reply)                                   (* callback(r) *)
| Emit (socket roomId : string) (e : emission)      (* socket.to(roomId).emit *)
| SocketJoin (socket roomId : string)               (* socket.join(roomId) *)
| Engine (c : engine_call).

(** ** The handler monad: state, log, early return and exceptions *)

Inductive flow (A : Type) : Type :=
| Next (a : A)
| Returned
| Raised (message : string).
Arguments Next {A} a.
Arguments Returned {A}.
Arguments Raised {A} message.

Definition H (A : Type) : Type := state -> flow A * state * list effect.

Definition ret {A : Type} (a : A) : H A := fun s => (Next a, s, []).

Definition bind {A B : Type} (m : H A) (k : A -> H B) : H B :=
  fun s =>
    match m s with
    | (Next a, s1, l1) =>
        match k a s1 with (r, s2, l2) => (r, s2, l1 ++ l2) end
    | (Returned, s1, l1) => (Returned, s1, l1)
    | (Raised e, s1, l1) => (Raised e, s1, l1)
    end.

Notation "x <- m ;; k" := (bind m (fun x => k))
  (at level 61, m at next level, right associativity).
Notation "m ;; k" := (bind m (fun _ => k))
  (at level 61, right associativity).

Definition return_ {A : Type} : H A := fun s => (Returned, s, []).

Definition try_catch (body : H unit) (handler : string -> H unit) : H unit :=
  fun s =>
    match body s with
    | (Raised e, s1, l1) =>
        match handler e s1 with (r, s2, l2) => (r, s2, l1 ++ l2) end
    | other => other
    end.

Definition get_state : H state := fun s => (Next s, s, []).

Definition modify (f : state -> state) : H unit := fun s => (Next tt, f s, []).

Definition log (e : effect) : H unit := fun s => (Next tt, s, [e]).

Definition ack (r : reply) : H unit := log (Ack r).

(** A call into the engine that may throw ([await] or not). *)
Definition engine {A : Type} (c : engine_call) (outcome : result A) : H A :=
  fun s =>
    match outcome with
    | Ok a => (Next a, s, [Engine c])
    | Throw e => (Raised e, s, [Engine c])
    end.

(** A call into the engine that returns nothing and does not throw. *)
Definition engine_ (c : engine_call) : H unit := log (Engine c).

Fixpoint for_each {A : Type} (l : list A) (body : A -> H unit) : H unit :=
  match l with
  | [] => ret tt
  | a :: l' => body a ;; for_each l' body
  end.

(** Running a handler from a state: the state it leaves and what it did. *)
Definition run (h : H unit) (s : state) : state * list effect :=
  match h s with (_, s', l) => (s', l) end.

(** ** Configuration *)

Definition initialAvailableOutgoingBitrate : N := 1000000%N.
Definition minimumAvailableOutgoingBitrate : N := 600000%N.

(** ** Helper functions *)

(** [!x] for a string: only the empty string is falsy. *)
Definition falsy (x : string) : bool := String.eqb x "".

(** The inner loop shared by [getPeerBySocket] and [getPeerByProducerId]. *)
Fixpoint first_peer (test : peer -> bool) (ps : list peer) : option peer :=
  match ps with
  | [] => None
  | p :: ps' => if test p then Some p else first_peer test ps'
  end.

Fixpoint first_peer_in_rooms (test : peer -> bool) (rs : list room)
  : option peer :=
  match rs with
  | [] => None
  | r :: rs' =>
      match first_peer test (JsMap.values (peers r)) with
      | Some p => Some p
      | None => first_peer_in_rooms test rs'
      end
  end.

Definition getPeerBySocket (s : state) (socket : string) : option peer :=
  first_peer_in_rooms (fun p => String.eqb (p_socket p) socket)
                      (JsMap.values (rooms s)).

Fixpoint room_with_peer (peerId : string) (rs : JsMap.t room) : option string :=
  match rs with
  | [] => None
  | (roomId, r) :: rs' =>
      if JsMap.has peerId (peers r) then Some roomId
      else room_with_peer peerId rs'
  end.

Definition getRoomByPeer (s : state) (p : peer) : option string :=
  room_with_peer (p_id p) (rooms s).

Definition getPeerByProducerId (s : state) (producerId : string) : option peer :=
  first_peer_in_rooms (fun p => JsMap.has producerId (producers p))
                      (JsMap.values (rooms s)).

(** In-place mutation of the peer object [ref]. *)
Definition update_peer (ref : nat) (f : peer -> peer) (s : state) : state :=
  {| rooms :=
       JsMap.map_values
         (fun r =>
            {| rm_router := rm_router r;
               peers := JsMap.map_values
                          (fun p => if Nat.eqb (p_ref p) ref then f p else p)
                          (peers r) |})
         (rooms s);
     next_ref := next_ref s |}.

(** In-place mutation of the room object stored under [roomId]. *)
Definition update_room (roomId : string) (f : room -> room) (s : state) : state :=
  {| rooms :=
       match JsMap.get roomId (rooms s) with
       | Some r => JsMap.set roomId (f r) (rooms s)
       | None => rooms s
       end;
     next_ref := next_ref s |}.

Definition set_peers (f : JsMap.t peer -> JsMap.t peer) (r : room) : room :=
  {| rm_router := rm_router r; peers := f (peers r) |}.

Definition set_transports (f : JsMap.t transport -> JsMap.t transport)
  (p : peer) : peer :=
  {| p_ref := p_ref p; p_id := p_id p; p_socket := p_socket p;
     transports := f (transports p);
     producers := producers p; consumers := consumers p |}.

Definition set_producers (f : JsMap.t producer -> JsMap.t producer)
  (p : peer) : peer :=
  {| p_ref := p_ref p; p_id := p_id p; p_socket := p_socket p;
     transports := transports p;
     producers := f (producers p); consumers := consumers p |}.

Definition set_consumers (f : JsMap.t consumer -> JsMap.t consumer)
  (p : peer) : peer :=
  {| p_ref := p_ref p; p_id := p_id p; p_socket := p_socket p;
     transports := transports p;
     producers := producers p; consumers := f (consumers p) |}.

(** [new] of a peer object: the next unused identity. *)
Definition new_peer (peerId socket : string) : H peer :=
  fun s =>
    (Next {| p_ref := next_ref s; p_id := peerId; p_socket := socket;
             transports := JsMap.empty; producers := JsMap.empty;
             consumers := JsMap.empty |},
     {| rooms := rooms s; next_ref := S (next_ref s) |}, []).

(** [getOrCreateRoom]. *)
Definition getOrCreateRoom (roomId : string) (createRouter : result router)
  : H room :=
  s <- get_state ;;
  match JsMap.get roomId (rooms s) with
  | Some r => ret r
  | None =>
      rt <- engine CreateRouter createRouter ;;
      let r := {| rm_router := rt; peers := JsMap.empty |} in
      modify (fun s => {| rooms := JsMap.set roomId r (rooms s);
                          next_ref := next_ref s |}) ;;
      ret r
  end.

(** ** The socket.io handlers *)

(** What the engine answers to the calls of one [join-room]. *)
Record join_engine : Type := mkJoinEngine {
  createRouter : result router;
  createSendTransport : result transport;
  setSendBitrate : result unit;
  createRecvTransport : result transport;
  setRecvBitrate : result unit
}.

(** [socket.on('join-room', async ({ roomId, peerId }, callback) => ...)].
    [callback] tells whether an acknowledgment function was passed. *)
Definition join_room (socket roomId peerId : string) (callback : bool)
  (eng : join_engine) : H unit :=
  try_catch
    (if negb callback then return_ else
     if falsy roomId || falsy peerId then
       ack (RError "roomId and peerId are required") ;; return_
     else
     room <- getOrCreateRoom roomId (createRouter eng) ;;
     if JsMap.has peerId (peers room) then
       ack (RError "Peer already exists in room") ;; return_
     else
     let routerRtpCapabilities := rtpCapabilities (rm_router room) in
     sendTransport <-
       engine (CreateWebRtcTransport (r_id (rm_router room))
                                     initialAvailableOutgoingBitrate)
              (createSendTransport eng) ;;
     engine (SetMaxIncomingBitrate (t_id sendTransport)
                                   minimumAvailableOutgoingBitrate)
            (setSendBitrate eng) ;;
     recvTransport <-
       engine (CreateWebRtcTransport (r_id (rm_router room))
                                     initialAvailableOutgoingBitrate)
              (createRecvTransport eng) ;;
     engine (SetMaxIncomingBitrate (t_id recvTransport)
                                   minimumAvailableOutgoingBitrate)
            (setRecvBitrate eng) ;;
     peer <- new_peer peerId socket ;;
     modify (update_room roomId (set_peers (JsMap.set peerId peer))) ;;
     modify (update_peer (p_ref peer)
               (set_transports (JsMap.set (t_id sendTransport) sendTransport))) ;;
     modify (update_peer (p_ref peer)
               (set_transports (JsMap.set (t_id recvTransport) recvTransport))) ;;
     log (SocketJoin socket roomId) ;;
     (if falsy roomId then ret tt
      else log (Emit socket roomId (PeerJoined peerId))) ;;
     ack (RJoined (describe sendTransport) (describe recvTransport)
                  routerRtpCapabilities))
    (fun e => if callback then ack (RError e) else ret tt).

(** [socket.on('connect-transport', ...)]; [dtls = None] is a missing
    (falsy) [dtlsParameters]. *)
Definition connect_transport (socket transportId : string)
  (dtls : option string) (callback : bool) (connect : result unit) : H unit :=
  try_catch
    (if negb callback then return_ else
     match dtls with
     | None => ack (RError "dtlsParameters is required") ;; return_
     | Some dtlsParameters =>
     s <- get_state ;;
     match getPeerBySocket s socket with
     | None => ack (RError "Peer not found") ;; return_
     | Some peer =>
     match JsMap.get transportId (transports peer) with
     | None => ack (RError "Transport not found") ;; return_
     | Some transport =>
         engine (TransportConnect (t_id transport) dtlsParameters) connect ;;
         ack RSuccess
     end end end)
    (fun e => ack (RError (if falsy e then "Failed to connect transport"
                           else e))).

(** [socket.on('produce', ...)]. *)
Definition produce (socket transportId kind rtpParameters : string)
  (callback : bool) (produced : result producer) : H unit :=
  try_catch
    (if negb callback then return_ else
     s <- get_state ;;
     match getPeerBySocket s socket with
     | None => ack (RError "Peer not found") ;; return_
     | Some peer =>
     match JsMap.get transportId (transports peer) with
     | None => ack (RError "Transport not found") ;; return_
     | Some transport =>
         producer <-
           engine (TransportProduce (t_id transport) kind rtpParameters)
                  produced ;;
         modify (update_peer (p_ref peer)
                   (set_producers (JsMap.set (pr_id producer) producer))) ;;
         s' <- get_state ;;
         match getRoomByPeer s' peer with
         | Some roomId =>
             if falsy roomId then ret tt
             else log (Emit socket roomId
                         (NewProducer (p_id peer) (pr_id producer)
                                      (pr_kind producer)))
         | None => ret tt
         end ;;
         ack (RProduced (pr_id producer))
     end end)
    (fun e => ack (RError e)).

Record consume_engine : Type := mkConsumeEngine {
  canConsume : result bool;
  consumed : result consumer
}.

(** [socket.on('consume', ...)]. *)
Definition consume (socket transportId producerId rtpCaps : string)
  (callback : bool) (eng : consume_engine) : H unit :=
  try_catch
    (if negb callback then return_ else
     s <- get_state ;;
     match getPeerBySocket s socket with
     | None => ack (RError "Peer not found") ;; return_
     | Some peer =>
     match JsMap.get transportId (transports peer) with
     | None => ack (RError "Transport not found") ;; return_
     | Some transport =>
     match getPeerByProducerId s producerId with
     | None => ack (RError "Producer peer not found") ;; return_
     | Some producerPeer =>
     match JsMap.get producerId (producers producerPeer) with
     | None => ack (RError "Producer not found") ;; return_
     | Some producer =>
     match getRoomByPeer s peer with
     | None => ack (RError "Room not found") ;; return_
     | Some room =>
     if falsy room then ack (RError "Room not found") ;; return_ else
     match JsMap.get room (rooms s) with
     | None => ack (RError "Room object not found") ;; return_
     | Some roomObj =>
         can <- engine (CanConsume (r_id (rm_router roomObj)) producerId rtpCaps)
                       (canConsume eng) ;;
         if negb can then ack (RError "Cannot consume") ;; return_ else
         consumer <-
           engine (TransportConsume (t_id transport) producerId rtpCaps false)
                  (consumed eng) ;;
         modify (update_peer (p_ref peer)
                   (set_consumers (JsMap.set (c_id consumer) consumer))) ;;
         ack (RConsumed (c_id consumer) (c_producerId consumer)
                        (c_kind consumer) (c_rtpParameters consumer))
     end end end end end end)
    (fun e => ack (RError e)).

(** [socket.on('resume-consumer', ...)]. *)
Definition resume_consumer (socket consumerId : string) (callback : bool)
  (resumed : result unit) : H unit :=
  try_catch
    (if negb callback then return_ else
     s <- get_state ;;
     match getPeerBySocket s socket with
     | None => ack (RError "Peer not found") ;; return_
     | Some peer =>
     match JsMap.get consumerId (consumers peer) with
     | None => ack (RError "Consumer not found") ;; return_
     | Some consumer =>
         engine (ConsumerResume (c_id consumer)) resumed ;;
         ack RSuccess
     end end)
    (fun e => ack (RError e)).

(** The two nested loops of [get-producers] over [roomObj.peers]. *)
Definition list_producers (self : string) (ps : JsMap.t peer)
  : list producer_info :=
  flat_map
    (fun entry =>
       if String.eqb (fst entry) self then []
       else map (fun pe => {| pi_peerId := fst entry;
                              pi_producerId := fst pe;
                              pi_kind := pr_kind (snd pe) |})
                (producers (snd entry)))
    ps.

(** [socket.on('get-producers', ...)]. *)
Definition get_producers (socket : string) (callback : bool) : H unit :=
  try_catch
    (if negb callback then return_ else
     s <- get_state ;;
     match getPeerBySocket s socket with
     | None => ack (RError "Peer not found") ;; return_
     | Some peer =>
     match getRoomByPeer s peer with
     | None => ack (RError "Room not found") ;; return_
     | Some room =>
     if falsy room then ack (RError "Room not found") ;; return_ else
     match JsMap.get room (rooms s) with
     | None => ack (RError "Room object not found") ;; return_
     | Some roomObj =>
         ack (RProducers (list_producers (p_id peer) (peers roomObj)))
     end end end)
    (fun e => ack (RError e)).

Definition delete_room (roomId : string) (s : state) : state :=
  {| rooms := JsMap.delete roomId (rooms s); next_ref := next_ref s |}.

(** [handlePeerDisconnect]. *)
Definition handlePeerDisconnect (socket : string) : H unit :=
  s <- get_state ;;
  match getPeerBySocket s socket with
  | None => return_
  | Some peer =>
  match getRoomByPeer s peer with
  | None => return_
  | Some roomId =>
  if falsy roomId then return_ else
  match JsMap.get roomId (rooms s) with
  | None => return_
  | Some _ =>
      for_each (JsMap.values (transports peer))
               (fun transport => engine_ (TransportClose (t_id transport))) ;;
      modify (update_room roomId (set_peers (JsMap.delete (p_id peer)))) ;;
      log (Emit socket roomId (PeerLeft (p_id peer))) ;;
      s' <- get_state ;;
      match JsMap.get roomId (rooms s') with
      | Some room =>
          if Nat.eqb (JsMap.size (peers room)) 0 then
            engine_ (RouterClose (r_id (rm_router room))) ;;
            modify (delete_room roomId)
          else ret tt
      | None => ret tt
      end
  end end end.

(** ** Callbacks registered with the engine *)

(** [producer.on('transportclose', ...)], registered by [produce] for the
    peer object [ref]. *)
Definition producer_transportclose (ref : nat) (producerId : string) : H unit :=
  engine_ (ProducerClose producerId) ;;
  modify (update_peer ref (set_producers (JsMap.delete producerId))).

(** [consumer.on('transportclose', ...)], registered by [consume]. *)
Definition consumer_transportclose (ref : nat) (consumerId : string) : H unit :=
  engine_ (ConsumerClose consumerId) ;;
  modify (update_peer ref (set_consumers (JsMap.delete consumerId))).

(** [transport.on('dtlsstatechange', ...)], registered by [join-room] for
    both transports. *)
Definition transport_dtlsstatechange (transportId dtlsState : string) : H unit :=
  if String.eqb dtlsState "closed" then engine_ (TransportClose transportId)
  else ret tt.

(** ** The server as a transition system *)

Inductive event : Type :=
| JoinRoom (socket roomId peerId : string) (callback : bool) (eng : join_engine)
| ConnectTransport (socket transportId : string) (dtls : option string)
                   (callback : bool) (connect : result unit)
| Produce (socket transportId kind rtpParameters : string) (callback : bool)
          (produced : result producer)
| Consume (socket transportId producerId rtpCaps : string) (callback : bool)
          (eng : consume_engine)
| ResumeConsumer (socket consumerId : string) (callback : bool)
                 (resumed : result unit)
| GetProducers (socket : string) (callback : bool)
| Disconnect (socket : string)
| ProducerTransportClose (ref : nat) (producerId : string)
| ConsumerTransportClose (ref : nat) (consumerId : string)
| DtlsStateChange (transportId dtlsState : string).

Definition handler (e : event) : H unit :=
  match e with
  | JoinRoom socket roomId peerId callback eng =>
      join_room socket roomId peerId callback eng
  | ConnectTransport socket transportId dtls callback connect =>
      connect_transport socket transportId dtls callback connect
  | Produce socket transportId kind rtpParameters callback produced =>
      produce socket transportId kind rtpParameters callback produced
  | Consume socket transportId producerId rtpCaps callback eng =>
      consume socket transportId producerId rtpCaps callback eng
  | ResumeConsumer socket consumerId callback resumed =>
      resume_consumer socket consumerId callback resumed
  | GetProducers socket callback => get_producers socket callback
  | Disconnect socket => handlePeerDisconnect socket
  | ProducerTransportClose ref producerId =>
      producer_transportclose ref producerId
  | ConsumerTransportClose ref consumerId =>
      consumer_transportclose ref consumerId
  | DtlsStateChange transportId dtlsState =>
      transport_dtlsstatechange transportId dtlsState
  end.

Definition step (s : state) (e : event) : state * list effect :=
  run (handler e) s.

(** The state and the whole log after a sequence of events. *)
Fixpoint exec (s : state) (es : list event) : state * list effect :=
  match es with
  | [] => (s, [])
  | e :: es' =>
      match step s e with
      | (s1, l1) => match exec s1 es' with (s2, l2) => (s2, l1 ++ l2) end
      end
  end.

Inductive reachable : state -> Prop :=
| reachable_initial : reachable initial
| reachable_step s e : reachable s -> reachable (fst (step s e)).

(** ** Start-up: certificates, the kind of server, the workers

    [fs], [path] and [process.env] are Node's; the file system is a
    function from paths to files, [path.join] is an argument, and the
    environment is a record of the variables that are read.  Console
    output is not modelled. *)

(** A path names no file, or a file with its content, or a file whose
    reading throws. *)
Definition file_system : Type := string -> option (result string).

Definition existsSync (fs : file_system) (path : string) : bool :=
  match fs path with Some _ => true | None => false end.

Definition readFileSync (fs : file_system) (path : string) : result string :=
  match fs path with
  | Some content => content
  | None => Throw "ENOENT: no such file or directory"
  end.

Record environment : Type := mkEnvironment {
  env_USE_HTTPS : option string;
  env_SSL_CERT_PATH : option string;
  env_SSL_KEY_PATH : option string;
  env_PORT : option string
}.

Record cert_path : Type := mkCertPath {
  cp_cert : option string;
  cp_key : option string
}.

Record ssl_options : Type := mkSslOptions {
  ssl_cert : string;
  ssl_key : string
}.

(** [x && ...] for a string that may be [undefined]. *)
Definition truthy (x : option string) : option string :=
  match x with
  | Some v => if falsy v then None else Some v
  | None => None
  end.

(** The array [certPaths] of [loadSSLCertificates]. *)
Definition certPaths (join : list string -> string) (dirname : string)
  (env : environment) : list cert_path :=
  [ {| cp_cert := Some (join [dirname; "certs"; "cert.pem"]);
       cp_key := Some (join [dirname; "certs"; "key.pem"]) |};
    {| cp_cert := Some (join [dirname; "certs"; "fullchain.pem"]);
       cp_key := Some (join [dirname; "certs"; "privkey.pem"]) |};
    {| cp_cert := env_SSL_CERT_PATH env;
       cp_key := env_SSL_KEY_PATH env |} ].

(** The body of the [try] of the loop: [Some] is the [return], [None] is
    falling out of the [if] or into the [catch]. *)
Definition read_pair (fs : file_system) (cert key : string)
  : option ssl_options :=
  if existsSync fs cert && existsSync fs key then
    match readFileSync fs cert with
    | Throw _ => None
    | Ok c =>
        match readFileSync fs key with
        | Throw _ => None
        | Ok k => Some {| ssl_cert := c; ssl_key := k |}
        end
    end
  else None.

(** [for (const certPath of certPaths) ...; return null]. *)
Fixpoint load_from (fs : file_system) (l : list cert_path)
  : option ssl_options :=
  match l with
  | [] => None
  | certPath :: l' =>
      match truthy (cp_cert certPath), truthy (cp_key certPath) with
      | Some cert, Some key =>
          match read_pair fs cert key with
          | Some options => Some options
          | None => load_from fs l'
          end
      | _, _ => load_from fs l'
      end
  end.

Definition loadSSLCertificates (fs : file_system)
  (join : list string -> string) (dirname : string) (env : environment)
  : option ssl_options :=
  load_from fs (certPaths join dirname env).






(** [process.env.PORT || 3004]: the variable as it is, or the number. *)
Definition PORT (env : environment) : string + N :=
  match truthy (env_PORT env) with
  | Some port => inl port
  | None => inr 3004%N
  end.

Definition numWorkers : nat := 2.

Inductive startup_effect : Type :=
| CreateWorker (i : nat)                    (* mediasoup.createWorker *)
| Listen (port : string + N) (host : string) (* server.listen *)
| Exit (code : N).                           (* process.exit *)

(** The loop of [createWorkers] from index [i] with [todo] rounds to go;
    [created i] is what the engine answers to the call of round [i].  The
    array [workers] is kept as far as it got when a call throws. *)
Fixpoint createWorkers_loop (created : nat -> result string) (i todo : nat)
  (workers : list string)
  : result unit * list string * list startup_effect :=
  match todo with
  | O => (Ok tt, workers, [])
  | S todo' =>
      match created i with
      | Throw e => (Throw e, workers, [CreateWorker i])
      | Ok worker =>
          match createWorkers_loop created (S i) todo' (workers ++ [worker]) with
          | (r, ws, l) => (r, ws, CreateWorker i :: l)
          end
      end
  end.

Definition createWorkers (created : nat -> result string)
  (workers : list string) : result unit * list string * list startup_effect :=
  createWorkers_loop created 0 numWorkers workers.

(** [startServer().catch(...)], from an empty [workers]. *)
Definition startServer (created : nat -> result string) (env : environment)
  : list string * list startup_effect :=
  match createWorkers created [] with
  | (Ok _, workers, l) => (workers, l ++ [Listen (PORT env) "0.0.0.0"])
  | (Throw _, workers, l) => (workers, l ++ [Exit 1%N])
  end.

(** * Vocabulary of the properties *)

(** ** Views of the registry *)

(** The peers of a list of rooms, in the order in which the nested loops
    of [getPeerBySocket] and [getPeerByProducerId] visit them. *)
Definition peers_of (rs : JsMap.t room) : list peer :=
  flat_map (fun r => JsMap.values (peers r)) (JsMap.values rs).

Definition all_peers (s : state) : list peer := peers_of (rooms s).


(** ** Well-formed registries *)

Fixpoint distinct (l : list string) : bool :=
  match l with
  | [] => true
  | x :: l' => negb (existsb (String.eqb x) l') && distinct l'
  end.

(** What every [Map] of the registry satisfies once it has been built by
    the handlers: keys are not repeated, room ids are truthy, and a peer
    is stored under its own [id]. *)
Definition room_ok (entry : string * room) : bool :=
  negb (falsy (fst entry))
  && distinct (JsMap.keys (peers (snd entry)))
  && forallb (fun pe => String.eqb (p_id (snd pe)) (fst pe)) (peers (snd entry)).

Definition wf (s : state) : bool :=
  distinct (JsMap.keys (rooms s)) && forallb room_ok (rooms s).

(** [room_ok], as a proposition. *)
Definition room_good (roomId : string) (r : room) : Prop :=
  falsy roomId = false /\
  NoDup (JsMap.keys (peers r)) /\
  (forall k p, In (k, p) (peers r) -> p_id p = k).

(** A mutation of a peer object that leaves its [id] and its [socket]
    alone (and is still the same object). *)
Definition keeps_identity (f : peer -> peer) : Prop :=
  forall p, p_id (f p) = p_id p /\ p_socket (f p) = p_socket p /\
            p_ref (f p) = p_ref p.

(** [p_ref] is an identity: no two peers of the registry share it, and
    the next one to be handed out is unused. *)
Definition refs_ok (s : state) : Prop :=
  NoDup (map p_ref (all_peers s)) /\
  Forall (fun p => p_ref p < next_ref s) (all_peers s).

(** ** Logs *)

(** [a] is logged, and later [b]. *)
Definition before (a b : effect) (l : list effect) : Prop :=
  exists l1 l2 l3, l = l1 ++ a :: l2 ++ b :: l3.


Definition is_close (e : effect) : bool :=
  match e with Engine (TransportClose _) => true | _ => false end.

(** A [transport.consume] call that asks for a paused consumer. *)
Definition is_paused_call (e : effect) : bool :=
  match e with Engine (TransportConsume _ _ _ paused) => paused | _ => false end.

(** ** Requests *)



(** ** The stages of [join-room] *)

(** The room that [join-room] works on once [getOrCreateRoom] has
    returned: the one in the registry, or a new one around the router that
    the engine has created. *)
Definition router_acquired (s : state) (roomId : string) (eng : join_engine)
  : option room :=
  match JsMap.get roomId (rooms s) with
  | Some r => Some r
  | None =>
      match createRouter eng with
      | Ok rt => Some {| rm_router := rt; peers := JsMap.empty |}
      | Throw _ => None
      end
  end.

(** What the four engine calls of [join-room] after the router is there
    amount to: both transports, or the first error. *)
Definition setup_outcome (eng : join_engine) : result (transport * transport) :=
  match createSendTransport eng with
  | Throw e => Throw e
  | Ok sendTransport =>
      match setSendBitrate eng with
      | Throw e => Throw e
      | Ok _ =>
          match createRecvTransport eng with
          | Throw e => Throw e
          | Ok recvTransport =>
              match setRecvBitrate eng with
              | Throw e => Throw e
              | Ok _ => Ok (sendTransport, recvTransport)
              end
          end
      end
  end.

(** The engine calls made on the way, up to and including the one that
    throws. *)
Definition setup_calls (routerId : string) (eng : join_engine) : list effect :=
  Engine (CreateWebRtcTransport routerId initialAvailableOutgoingBitrate) ::
  match createSendTransport eng with
  | Throw _ => []
  | Ok sendTransport =>
      Engine (SetMaxIncomingBitrate (t_id sendTransport)
                                    minimumAvailableOutgoingBitrate) ::
      match setSendBitrate eng with
      | Throw _ => []
      | Ok _ =>
          Engine (CreateWebRtcTransport routerId
                                        initialAvailableOutgoingBitrate) ::
          match createRecvTransport eng with
          | Throw _ => []
          | Ok recvTransport =>
              [Engine (SetMaxIncomingBitrate (t_id recvTransport)
                                             minimumAvailableOutgoingBitrate)]
          end
      end
  end.

(** The transports that the engine has created when the setup stops. *)
Definition created (eng : join_engine) : list transport :=
  match createSendTransport eng with
  | Throw _ => []
  | Ok sendTransport =>
      sendTransport ::
      match setSendBitrate eng with
      | Throw _ => []
      | Ok _ =>
          match createRecvTransport eng with
          | Throw _ => []
          | Ok recvTransport => [recvTransport]
          end
      end
  end.

(** The registry once the new peer object has been stored and has
    received its two transports. *)
Definition after_join (s : state) (socket roomId peerId : string)
  (sendTransport recvTransport : transport) : state :=
  let P := {| p_ref := next_ref s; p_id := peerId; p_socket := socket;
              transports := JsMap.empty; producers := JsMap.empty;
              consumers := JsMap.empty |} in
  update_peer (p_ref P)
    (set_transports (JsMap.set (t_id recvTransport) recvTransport))
    (update_peer (p_ref P)
       (set_transports (JsMap.set (t_id sendTransport) sendTransport))
       (update_room roomId (set_peers (JsMap.set peerId P))
          {| rooms := rooms s; next_ref := S (next_ref s) |})).

(** ** The stages of [produce] and of a disconnect *)

(** The [new-producer] emission of a [produce] by [P]. *)
Definition new_producer_emission (s : state) (socket : string) (P : peer)
  (pr : producer) : list effect :=
  match getRoomByPeer s P with
  | Some roomId =>
      if falsy roomId then []
      else [Emit socket roomId (NewProducer (p_id P) (pr_id pr) (pr_kind pr))]
  | None => []
  end.

(** The registry and the log that a disconnect leaves when it finds the
    peer [P], the room id [roomId] and the room [r]. *)
Definition after_disconnect (s : state) (socket : string) (P : peer)
  (roomId : string) (r : room) : state * list effect :=
  let left := set_peers (JsMap.delete (p_id P)) r in
  let s1 := update_room roomId (set_peers (JsMap.delete (p_id P))) s in
  let closes :=
    map (fun t => Engine (TransportClose (t_id t))) (JsMap.values (transports P)) in
  if Nat.eqb (JsMap.size (peers left)) 0 then
    (delete_room roomId s1,
     closes ++ [Emit socket roomId (PeerLeft (p_id P));
                Engine (RouterClose (r_id (rm_router r)))])
  else
    (s1, closes ++ [Emit socket roomId (PeerLeft (p_id P))]).

(** ** What [get-producers] is to return

    The producers of every peer of the requesting peer's room except that
    peer itself.  The room of a peer object is the room whose [peers] map
    holds it; the peer itself is told from the others by its identity. *)

Definition room_of (s : state) (P : peer) : option room :=
  find (fun r => existsb (fun q => Nat.eqb (p_ref q) (p_ref P))
                         (JsMap.values (peers r)))
       (JsMap.values (rooms s)).

Definition producers_of_others (P : peer) (r : room) : list producer_info :=
  flat_map
    (fun q =>
       if Nat.eqb (p_ref q) (p_ref P) then []
       else map (fun pe => {| pi_peerId := p_id q;
                              pi_producerId := fst pe;
                              pi_kind := pr_kind (snd pe) |})
                (producers q))
    (JsMap.values (peers r)).

Definition get_producers_spec (s : state) (socket : string)
  : option (list producer_info) :=
  match getPeerBySocket s socket with
  | None => None
  | Some P => option_map (producers_of_others P) (room_of s P)
  end.

(** ** Sessions used in the examples *)

Definition a_transport (id : string) : transport :=
  {| t_id := id; iceParameters := "ice"; iceCandidates := "candidates";
     dtlsParameters := "fingerprint"; sctpParameters := "sctp" |}.

(** An engine that grants everything [join-room] asks for. *)
Definition engine_ok (routerId sendId recvId : string) : join_engine :=
  {| createRouter := Ok {| r_id := routerId; rtpCapabilities := "codecs" |};
     createSendTransport := Ok (a_transport sendId);
     setSendBitrate := Ok tt;
     createRecvTransport := Ok (a_transport recvId);
     setRecvBitrate := Ok tt |}.

(** An engine that has no port left for the second transport. *)
Definition engine_no_port : join_engine :=
  {| createRouter := Ok {| r_id := "R1"; rtpCapabilities := "codecs" |};
     createSendTransport := Ok (a_transport "tA1");
     setSendBitrate := Ok tt;
     createRecvTransport := Throw "no port";
     setRecvBitrate := Ok tt |}.

(** Peers [a] and [b] join room [r1] from sockets [sA] and [sB]; [a]
    produces video on its first transport. *)
Definition a_joins : event :=
  JoinRoom "sA" "r1" "a" true (engine_ok "R1" "tA1" "tA2").
Definition b_joins : event :=
  JoinRoom "sB" "r1" "b" true (engine_ok "R1b" "tB1" "tB2").
Definition a_produces : event :=
  Produce "sA" "tA1" "video" "vp8" true
          (Ok {| pr_id := "p1"; pr_kind := "video" |}).

Definition a_alone : state := fst (exec initial [a_joins]).
Definition a_producing : state := fst (exec initial [a_joins; a_produces]).
Definition a_and_b : state := fst (exec initial [a_joins; b_joins]).
Definition a_and_b_producing : state :=
  fst (exec initial [a_joins; b_joins; a_produces]).

(** The socket of [a] joins a second room under another peer id. *)
Definition a_joins_again : event :=
  JoinRoom "sA" "r2" "a2" true (engine_ok "R2" "tA3" "tA4").

Definition a_twice : state := fst (exec initial [a_joins; a_joins_again]).

(** Two rooms in which a peer calls itself [ann]; [bob] shares room [r1]
    with the first and produces video, [carl] shares room [r2] with the
    second and produces audio. *)
Definition two_rooms : state :=
  fst (exec initial
         [JoinRoom "s1" "r1" "ann" true (engine_ok "R1" "t1" "t2");
          JoinRoom "s2" "r1" "bob" true (engine_ok "R1" "t3" "t4");
          Produce "s2" "t3" "video" "vp8" true
                  (Ok {| pr_id := "pb"; pr_kind := "video" |});
          JoinRoom "s3" "r2" "ann" true (engine_ok "R2" "t5" "t6");
          JoinRoom "s4" "r2" "carl" true (engine_ok "R2" "t7" "t8");
          Produce "s4" "t7" "audio" "opus" true
                  (Ok {| pr_id := "pc"; pr_kind := "audio" |})]).

(** ** Vocabulary of the further properties *)

(** What one candidate of [certPaths] yields: both paths are there and
    both files exist and can be read. *)
Definition usable (fs : file_system) (p : cert_path) : option ssl_options :=
  match truthy (cp_cert p), truthy (cp_key p) with
  | Some cert, Some key => read_pair fs cert key
  | _, _ => None
  end.

(** The content of the file at a path that may be missing. *)
Definition content_of (fs : file_system) (path : option string)
  : option string :=
  match truthy path with
  | Some p => match fs p with Some (Ok c) => Some c | _ => None end
  | None => None
  end.

Definition is_listen (e : startup_effect) : bool :=
  match e with Listen _ _ => true | _ => false end.

Definition is_exit (e : startup_effect) : bool :=
  match e with Exit _ => true | _ => false end.

(** A [path.join] for the examples. *)
Definition join_slash (l : list string) : string := String.concat "/" l.

(** A directory with a certificate that cannot be read and a readable
    Let's Encrypt pair. *)
Definition fs_fullchain_only : file_system :=
  fun path =>
    if String.eqb path "/app/certs/cert.pem" then Some (Throw "EACCES")
    else if String.eqb path "/app/certs/key.pem" then Some (Ok "KEY")
    else if String.eqb path "/app/certs/fullchain.pem" then Some (Ok "CHAIN")
    else if String.eqb path "/app/certs/privkey.pem" then Some (Ok "PRIVATE")
    else None.

Definition env_https : environment :=
  {| env_USE_HTTPS := Some "true"; env_SSL_CERT_PATH := None;
     env_SSL_KEY_PATH := None; env_PORT := None |}.



Definition is_emit (e : effect) : bool :=
  match e with Emit _ _ _ => true | _ => false end.

Definition is_error (e : effect) : bool :=
  match e with Ack (RError _) => true | _ => false end.

(** The requests of a peer that has joined. *)
Definition after_joining (e : event) : bool :=
  match e with
  | ConnectTransport _ _ _ _ _ | Produce _ _ _ _ _ _ | Consume _ _ _ _ _ _
  | ResumeConsumer _ _ _ _ | GetProducers _ _ => true
  | _ => false
  end.

(** Those of them that only ask. *)
Definition read_only (e : event) : bool :=
  match e with
  | ConnectTransport _ _ _ _ _ | ResumeConsumer _ _ _ _ | GetProducers _ _ =>
      true
  | _ => false
  end.

(** No two peers of the registry share a peer id, also across rooms. *)
Definition unique_ids (s : state) : bool := distinct (map p_id (all_peers s)).

(** A [Map] whose entries are stored under their own id, each id once. *)
Definition keyed_by_id {V : Type} (id : V -> string) (m : JsMap.t V) : bool :=
  distinct (JsMap.keys m)
  && forallb (fun e => String.eqb (id (snd e)) (fst e)) m.

(** What the handlers keep true of every peer object: its transports,
    producers and consumers are stored under their ids, and it has the
    transports of its join, one or two. *)
Definition peer_ok (p : peer) : bool :=
  keyed_by_id t_id (transports p)
  && keyed_by_id pr_id (producers p)
  && keyed_by_id c_id (consumers p)
  && Nat.leb 1 (JsMap.size (transports p))
  && Nat.leb (JsMap.size (transports p)) 2.

Definition peers_ok (s : state) : bool := forallb peer_ok (all_peers s).

(** A mutation of a peer object that keeps its identity and its
    transports, and under which [peer_ok] is kept. *)
Definition preserves_ok (f : peer -> peer) : Prop :=
  keeps_identity f /\
  forall p, transports (f p) = transports p /\
            (peer_ok p = true -> peer_ok (f p) = true).

(** Peer [a] of the sessions, once it produces. *)
Definition peer_a : peer :=
  {| p_ref := 0; p_id := "a"; p_socket := "sA";
     transports := [("tA1", a_transport "tA1"); ("tA2", a_transport "tA2")];
     producers := [("p1", {| pr_id := "p1"; pr_kind := "video" |})];
     consumers := [] |}.

(** * Properties *)

(** ** Running the monad *)

Ltac unfold_handlers :=
  unfold step, run, handler, join_room, connect_transport, produce, consume,
    resume_consumer, get_producers, handlePeerDisconnect,
    producer_transportclose, consumer_transportclose,
    transport_dtlsstatechange, getOrCreateRoom, new_peer.

Ltac unfold_monad :=
  unfold try_catch, bind, ret, return_, get_state, modify, ack;
  unfold engine, engine_, log.

(** Case analysis on whatever a handler branches on next. *)
Ltac branch :=
  match goal with
  | |- context [match ?x with _ => _ end] =>
      lazymatch x with
      | context [match _ with _ => _ end] => fail
      | _ => destruct x eqn:?
      end
  end.

(** Logs that differ by the bracketing of [++]. *)
Ltac done_log := simpl; rewrite <- ?app_assoc; simpl; reflexivity.

Arguments update_peer : simpl never.
Arguments update_room : simpl never.
Arguments delete_room : simpl never.

(** ** Loops *)

Lemma for_each_engine {A : Type} (c : A -> engine_call) (l : list A) (s : state) :
  for_each l (fun a => engine_ (c a)) s =
  (Next tt, s, map (fun a => Engine (c a)) l).
Proof.
  induction l as [|a l IH]; simpl; [reflexivity|].
  unfold bind. unfold engine_ at 1. unfold log. now rewrite IH.
Qed.

(** ** Facts about insertion-ordered maps *)

Section JsMapFacts.
Context {V : Type}.
Implicit Types (k : string) (m : JsMap.t V).

Lemma get_In k m v : JsMap.get k m = Some v -> In (k, v) m.
Proof.
  induction m as [|[k' v'] m IH]; simpl; [discriminate|].
  destruct (String.eqb_spec k k') as [->|]; intros E.
  - injection E as ->. now left.
  - right. now apply IH.
Qed.

Lemma In_has k m v : In (k, v) m -> JsMap.has k m = true.
Proof.
  unfold JsMap.has.
  induction m as [|[k' v'] m IH]; simpl; [contradiction|].
  intros [E|Hin].
  - injection E as -> ->. now rewrite String.eqb_refl.
  - destruct (String.eqb k k'); [reflexivity|]. now apply IH.
Qed.

Lemma has_In k m : JsMap.has k m = true -> exists v, In (k, v) m.
Proof.
  unfold JsMap.has. destruct (JsMap.get k m) as [v|] eqn:E; [|discriminate].
  intros _. exists v. now apply get_In.
Qed.

Lemma get_not_In k m : JsMap.get k m = None -> ~ In k (JsMap.keys m).
Proof.
  induction m as [|[k' v'] m IH]; simpl; [tauto|].
  destruct (String.eqb_spec k k') as [->|Hne]; [discriminate|].
  intros E [E'|Hin]; [congruence|]. now apply IH.
Qed.


(** A new key goes to the end. *)
Lemma set_new k v m : JsMap.get k m = None -> JsMap.set k v m = m ++ [(k, v)].
Proof.
  induction m as [|[k' v'] m IH]; simpl; [reflexivity|].
  destruct (String.eqb k k'); [discriminate|].
  intros E. now rewrite IH.
Qed.

(** An existing key keeps its place. *)
Lemma set_at k v v0 (m1 m2 : JsMap.t V) :
  ~ In k (JsMap.keys m1) ->
  JsMap.set k v (m1 ++ (k, v0) :: m2) = m1 ++ (k, v) :: m2.
Proof.
  induction m1 as [|[k' v'] m1 IH]; simpl.
  - now rewrite String.eqb_refl.
  - intros Hn. destruct (String.eqb_spec k k') as [->|Hne]; [tauto|].
    rewrite IH; tauto.
Qed.

Lemma get_at k v (m1 m2 : JsMap.t V) :
  ~ In k (JsMap.keys m1) -> JsMap.get k (m1 ++ (k, v) :: m2) = Some v.
Proof.
  induction m1 as [|[k' v'] m1 IH]; simpl.
  - now rewrite String.eqb_refl.
  - intros Hn. destruct (String.eqb_spec k k') as [->|Hne]; [tauto|].
    apply IH. tauto.
Qed.

Lemma delete_absent k m : ~ In k (JsMap.keys m) -> JsMap.delete k m = m.
Proof.
  unfold JsMap.delete.
  induction m as [|[k' v'] m IH]; simpl; [reflexivity|].
  intros Hn. destruct (String.eqb_spec k k') as [->|Hne]; [tauto|].
  simpl. rewrite IH; tauto.
Qed.

Lemma delete_at k v (m1 m2 : JsMap.t V) :
  ~ In k (JsMap.keys m1) -> ~ In k (JsMap.keys m2) ->
  JsMap.delete k (m1 ++ (k, v) :: m2) = m1 ++ m2.
Proof.
  intros H1 H2. unfold JsMap.delete. rewrite filter_app. simpl.
  rewrite String.eqb_refl. simpl.
  fold (JsMap.delete k m1). fold (JsMap.delete k m2).
  now rewrite !delete_absent.
Qed.

Lemma keys_set k v m :
  JsMap.keys (JsMap.set k v m) =
  if JsMap.has k m then JsMap.keys m else JsMap.keys m ++ [k].
Proof.
  unfold JsMap.has.
  induction m as [|[k' v'] m IH]; simpl; [reflexivity|].
  destruct (String.eqb_spec k k') as [->|Hne]; simpl; [reflexivity|].
  rewrite IH. now destruct (JsMap.get k m).
Qed.

Lemma In_set k v m k' v' :
  In (k', v') (JsMap.set k v m) -> (k', v') = (k, v) \/ In (k', v') m.
Proof.
  induction m as [|[k0 v0] m IH]; simpl.
  - intros [E|[]]. now left.
  - destruct (String.eqb k k0); simpl; intros [E|Hin]; auto.
    destruct (IH Hin); auto.
Qed.

Lemma In_delete k m k' v' :
  In (k', v') (JsMap.delete k m) -> In (k', v') m /\ k' <> k.
Proof.
  unfold JsMap.delete. rewrite filter_In. simpl.
  intros [Hin Hk]. split; [assumption|].
  intros ->. now rewrite String.eqb_refl in Hk.
Qed.

Lemma get_map_values {W : Type} (f : V -> W) k m :
  JsMap.get k (JsMap.map_values f m) = option_map f (JsMap.get k m).
Proof.
  induction m as [|[k' v'] m IH]; simpl; [reflexivity|].
  now destruct (String.eqb k k').
Qed.

Lemma has_map_values {W : Type} (f : V -> W) k m :
  JsMap.has k (JsMap.map_values f m) = JsMap.has k m.
Proof.
  unfold JsMap.has. rewrite get_map_values. now destruct (JsMap.get k m).
Qed.

Lemma keys_map_values {W : Type} (f : V -> W) m :
  JsMap.keys (JsMap.map_values f m) = JsMap.keys m.
Proof.
  unfold JsMap.keys, JsMap.map_values. rewrite map_map. reflexivity.
Qed.

Lemma values_map_values {W : Type} (f : V -> W) m :
  JsMap.values (JsMap.map_values f m) = map f (JsMap.values m).
Proof.
  unfold JsMap.values, JsMap.map_values. now rewrite !map_map.
Qed.

(** Where the first entry under a key sits. *)
Lemma get_split k m v :
  JsMap.get k m = Some v ->
  exists m1 m2, m = m1 ++ (k, v) :: m2 /\ ~ In k (JsMap.keys m1).
Proof.
  induction m as [|[k' v'] m IH]; simpl; [discriminate|].
  destruct (String.eqb_spec k k') as [->|Hne]; intros E.
  - injection E as ->. exists [], m. simpl. tauto.
  - destruct (IH E) as (m1 & m2 & -> & Hn).
    exists ((k', v') :: m1), m2. simpl. split; [reflexivity|].
    intros [?|?]; [congruence|tauto].
Qed.

End JsMapFacts.

(** ** Facts about the registry *)

Lemma distinct_NoDup (l : list string) : distinct l = true <-> NoDup l.
Proof.
  induction l as [|x l IH]; simpl.
  - split; [constructor|reflexivity].
  - rewrite andb_true_iff, negb_true_iff, IH. split.
    + intros [Hx Hl]. constructor; [|assumption].
      intros Hin. assert (existsb (String.eqb x) l = true); [|congruence].
      apply existsb_exists. exists x. now rewrite String.eqb_refl.
    + intros Hnd. inversion Hnd as [|? ? Hx Hl]; subst. split; [|assumption].
      destruct (existsb (String.eqb x) l) eqn:E; [|reflexivity].
      apply existsb_exists in E as (y & Hy & Exy).
      apply String.eqb_eq in Exy. subst. contradiction.
Qed.

Lemma wf_rooms (s : state) : wf s = true -> NoDup (JsMap.keys (rooms s)).
Proof.
  unfold wf. rewrite andb_true_iff. intros [H _]. now apply distinct_NoDup.
Qed.

Lemma wf_room (s : state) (roomId : string) (r : room) :
  wf s = true -> In (roomId, r) (rooms s) ->
  falsy roomId = false /\
  NoDup (JsMap.keys (peers r)) /\
  (forall k p, In (k, p) (peers r) -> p_id p = k).
Proof.
  unfold wf. rewrite andb_true_iff. intros [_ H] Hin.
  rewrite forallb_forall in H. specialize (H _ Hin).
  unfold room_ok in H. simpl in H.
  rewrite !andb_true_iff, negb_true_iff in H. destruct H as [[H1 H2] H3].
  repeat split; [assumption|now apply distinct_NoDup|].
  intros k p Hp. rewrite forallb_forall in H3. specialize (H3 _ Hp).
  simpl in H3. now apply String.eqb_eq.
Qed.

Lemma first_peer_Some (test : peer -> bool) (ps : list peer) (p : peer) :
  first_peer test ps = Some p -> In p ps /\ test p = true.
Proof.
  induction ps as [|q ps IH]; simpl; [discriminate|].
  destruct (test q) eqn:E.
  - intros [= ->]. auto.
  - intros H. destruct (IH H). auto.
Qed.


Lemma first_peer_app (test : peer -> bool) (l1 l2 : list peer) :
  first_peer test (l1 ++ l2) =
  match first_peer test l1 with
  | Some p => Some p
  | None => first_peer test l2
  end.
Proof.
  induction l1 as [|q l1 IH]; simpl; [reflexivity|].
  now destruct (test q).
Qed.

(** The nested loops visit the peers room after room. *)
Lemma first_peer_in_rooms_flat (test : peer -> bool) (rs : list room) :
  first_peer_in_rooms test rs =
  first_peer test (flat_map (fun r => JsMap.values (peers r)) rs).
Proof.
  induction rs as [|r rs IH]; simpl; [reflexivity|].
  rewrite first_peer_app, IH. reflexivity.
Qed.


Lemma In_values {V : Type} (v : V) (m : JsMap.t V) :
  In v (JsMap.values m) -> exists k, In (k, v) m.
Proof.
  unfold JsMap.values. rewrite in_map_iff.
  intros ([k v'] & E & Hin). simpl in E. subst. now exists k.
Qed.

Lemma first_peer_in_rooms_Some (test : peer -> bool) (rs : JsMap.t room)
  (p : peer) :
  first_peer_in_rooms test (JsMap.values rs) = Some p ->
  test p = true /\
  exists roomId r k, In (roomId, r) rs /\ In (k, p) (peers r).
Proof.
  rewrite first_peer_in_rooms_flat. intros H.
  apply first_peer_Some in H as [Hin Ht]. split; [assumption|].
  apply in_flat_map in Hin as (r & Hr & Hp).
  apply In_values in Hr as [roomId Hr]. apply In_values in Hp as [k Hp].
  now exists roomId, r, k.
Qed.

(** Where [getRoomByPeer] stops. *)
Lemma room_with_peer_split (peerId roomId : string) (rs : JsMap.t room) :
  room_with_peer peerId rs = Some roomId ->
  exists pre r post,
    rs = pre ++ (roomId, r) :: post /\
    JsMap.has peerId (peers r) = true /\
    Forall (fun e => JsMap.has peerId (peers (snd e)) = false) pre.
Proof.
  induction rs as [|[k r] rs IH]; simpl; [discriminate|].
  destruct (JsMap.has peerId (peers r)) eqn:E.
  - intros [= ->]. exists [], r, rs. simpl. auto.
  - intros H. destruct (IH H) as (pre & r' & post & -> & Hh & Hpre).
    exists ((k, r) :: pre), r', post. simpl. auto.
Qed.

Lemma room_with_peer_found (peerId roomId : string) (r : room)
  (rs : JsMap.t room) :
  In (roomId, r) rs -> JsMap.has peerId (peers r) = true ->
  exists roomId', room_with_peer peerId rs = Some roomId'.
Proof.
  induction rs as [|[k r'] rs IH]; simpl; [contradiction|].
  intros [E|Hin] Hh.
  - injection E as -> ->. rewrite Hh. eauto.
  - destruct (JsMap.has peerId (peers r')); eauto.
Qed.

Lemma NoDup_keys_split {V : Type} (k : string) (v : V) (m1 m2 : JsMap.t V) :
  NoDup (JsMap.keys (m1 ++ (k, v) :: m2)) ->
  ~ In k (JsMap.keys m1) /\ ~ In k (JsMap.keys m2).
Proof.
  unfold JsMap.keys. rewrite map_app. simpl. intros H.
  apply NoDup_remove_2 in H. rewrite in_app_iff in H. tauto.
Qed.

(** In a well-formed registry the peer found for a socket has a room, and
    [getRoomByPeer] finds one. *)
Lemma getRoomByPeer_found (s : state) (socket : string) (P : peer) :
  wf s = true -> getPeerBySocket s socket = Some P ->
  exists roomId r,
    getRoomByPeer s P = Some roomId /\ falsy roomId = false /\
    JsMap.get roomId (rooms s) = Some r /\
    JsMap.has (p_id P) (peers r) = true.
Proof.
  intros Hwf HP. unfold getPeerBySocket in HP.
  apply first_peer_in_rooms_Some in HP as (_ & rid & r & k & Hr & Hp).
  destruct (wf_room _ _ _ Hwf Hr) as (_ & _ & Hid).
  rewrite <- (Hid _ _ Hp) in Hp.
  destruct (room_with_peer_found (p_id P) _ _ _ Hr (In_has _ _ _ Hp))
    as [roomId Hfound].
  destruct (room_with_peer_split _ _ _ Hfound) as (pre & r' & post & E & Hh & _).
  exists roomId, r'. unfold getRoomByPeer. split; [assumption|].
  assert (Hin : In (roomId, r') (rooms s)).
  { rewrite E. apply in_or_app. right. now left. }
  destruct (wf_room _ _ _ Hwf Hin) as (Hf & _ & _).
  split; [assumption|]. split; [|assumption].
  pose proof (wf_rooms _ Hwf) as Hnd. rewrite E in Hnd |- *.
  apply get_at. now apply NoDup_keys_split in Hnd.
Qed.

(** In-place mutation of a peer moves nothing. *)
Lemma room_with_peer_update_peer (ref : nat) (f : peer -> peer) (s : state)
  (peerId : string) :
  room_with_peer peerId (rooms (update_peer ref f s)) =
  room_with_peer peerId (rooms s).
Proof.
  unfold update_peer. simpl.
  induction (rooms s) as [|[k r] rs IH]; simpl; [reflexivity|].
  rewrite has_map_values, IH. reflexivity.
Qed.

(** ** What [handlePeerDisconnect] does *)

Lemma get_set_same {V : Type} (k : string) (v : V) (m : JsMap.t V) :
  JsMap.get k (JsMap.set k v m) = Some v.
Proof.
  induction m as [|[k' v'] m IH]; simpl.
  - now rewrite String.eqb_refl.
  - destruct (String.eqb k k') eqn:E; simpl.
    + now rewrite String.eqb_refl.
    + now rewrite E.
Qed.

Lemma disconnect_run (s : state) (socket : string) (P : peer)
  (roomId : string) (r : room) :
  getPeerBySocket s socket = Some P ->
  getRoomByPeer s P = Some roomId ->
  falsy roomId = false ->
  JsMap.get roomId (rooms s) = Some r ->
  step s (Disconnect socket) = after_disconnect s socket P roomId r.
Proof.
  intros HP HR HF HG.
  unfold after_disconnect, step, run, handler, handlePeerDisconnect.
  unfold bind at 1. unfold get_state at 1. rewrite HP, HR, HF, HG.
  unfold bind at 1. rewrite for_each_engine.
  unfold bind, modify, log, get_state, engine_, ret.
  unfold update_room at 1. simpl. rewrite HG, get_set_same. simpl.
  destruct (JsMap.size (JsMap.delete (p_id P) (peers r)) =? 0)%nat;
    simpl; rewrite ?app_nil_r; reflexivity.
Qed.

(** Without a peer, a room id or a room, a disconnect does nothing. *)
Lemma disconnect_idle (s : state) (socket : string) :
  match getPeerBySocket s socket with
  | None => True
  | Some P =>
      match getRoomByPeer s P with
      | None => True
      | Some roomId =>
          falsy roomId = true \/ JsMap.get roomId (rooms s) = None
      end
  end ->
  step s (Disconnect socket) = (s, []).
Proof.
  unfold step, run, handler, handlePeerDisconnect.
  unfold bind at 1. unfold get_state at 1.
  destruct (getPeerBySocket s socket) as [P|]; [|reflexivity].
  destruct (getRoomByPeer s P) as [roomId|]; [|reflexivity].
  destruct (falsy roomId); [reflexivity|].
  intros [ H | -> ]; [discriminate|reflexivity].
Qed.

Lemma disconnect_cases (s : state) (socket : string) :
  step s (Disconnect socket) = (s, []) \/
  exists P roomId r,
    getPeerBySocket s socket = Some P /\
    getRoomByPeer s P = Some roomId /\
    falsy roomId = false /\
    JsMap.get roomId (rooms s) = Some r /\
    step s (Disconnect socket) = after_disconnect s socket P roomId r.
Proof.
  destruct (getPeerBySocket s socket) as [P|] eqn:HP;
    [|left; apply disconnect_idle; now rewrite HP].
  destruct (getRoomByPeer s P) as [roomId|] eqn:HR;
    [|left; apply disconnect_idle; now rewrite HP, HR].
  destruct (falsy roomId) eqn:HF;
    [left; apply disconnect_idle; rewrite HP, HR; auto|].
  destruct (JsMap.get roomId (rooms s)) as [r|] eqn:HG;
    [|left; apply disconnect_idle; rewrite HP, HR; auto].
  right. exists P, roomId, r. repeat split; auto using disconnect_run.
Qed.




(** ** What the requests do *)

(** A successful [consume], step by step. *)
Lemma consume_acked (s : state) (socket transportId producerId rtpCaps : string)
  (callback : bool) (eng : consume_engine) (id p k r : string) :
  In (Ack (RConsumed id p k r))
     (snd (step s (Consume socket transportId producerId rtpCaps callback eng))) ->
  exists P t owner pr roomId roomObj,
    callback = true /\
    getPeerBySocket s socket = Some P /\
    JsMap.get transportId (transports P) = Some t /\
    getPeerByProducerId s producerId = Some owner /\
    JsMap.get producerId (producers owner) = Some pr /\
    getRoomByPeer s P = Some roomId /\
    JsMap.get roomId (rooms s) = Some roomObj /\
    canConsume eng = Ok true /\
    consumed eng = Ok (mkConsumer id p k r) /\
    step s (Consume socket transportId producerId rtpCaps callback eng) =
      (update_peer (p_ref P)
         (set_consumers (JsMap.set id (mkConsumer id p k r))) s,
       [Engine (CanConsume (r_id (rm_router roomObj)) producerId rtpCaps);
        Engine (TransportConsume (t_id t) producerId rtpCaps false);
        Ack (RConsumed id p k r)]).
Proof.
  unfold_handlers; unfold_monad. destruct callback; simpl.
  2: intros [].
  repeat (branch; simpl;
          try (intros H; repeat destruct H as [H|H]; discriminate || contradiction)).
  intros [H|[H|[H|[]]]]; try discriminate.
  destruct a0 as [id' p' k' r']. simpl in *. injection H as -> -> -> ->.
  destruct a; [|discriminate].
  now exists p0, t, p1, p2, s0, r0.
Qed.


(** A successful [produce], step by step. *)
Lemma produce_acked (s : state) (socket transportId kind rtpParameters : string)
  (callback : bool) (produced : result producer) (id : string) :
  In (Ack (RProduced id))
     (snd (step s (Produce socket transportId kind rtpParameters callback
                           produced))) ->
  exists P t pr,
    callback = true /\
    getPeerBySocket s socket = Some P /\
    JsMap.get transportId (transports P) = Some t /\
    produced = Ok pr /\ pr_id pr = id /\
    step s (Produce socket transportId kind rtpParameters callback produced) =
      (update_peer (p_ref P) (set_producers (JsMap.set id pr)) s,
       Engine (TransportProduce (t_id t) kind rtpParameters)
         :: new_producer_emission s socket P pr ++ [Ack (RProduced id)]).
Proof.
  unfold new_producer_emission.
  unfold_handlers; unfold_monad. destruct callback; simpl.
  2: intros [].
  repeat (branch; simpl;
          try (intros H; repeat destruct H as [H|H]; discriminate || contradiction)).
  all: unfold getRoomByPeer in *; rewrite room_with_peer_update_peer in *.
  all: intros H; exists p, t, a; rewrite ?Heqo1, ?Heqb;
    repeat destruct H as [H|H]; try discriminate; try contradiction;
    injection H as <-; auto 10.
Qed.


Lemma first_peer_map (test : peer -> bool) (g : peer -> peer) (ps : list peer) :
  (forall p, test (g p) = test p) ->
  first_peer test (map g ps) = option_map g (first_peer test ps).
Proof.
  intros Hg. induction ps as [|q ps IH]; simpl; [reflexivity|].
  rewrite Hg. now destruct (test q).
Qed.

Lemma all_peers_update_peer (ref : nat) (f : peer -> peer) (s : state) :
  all_peers (update_peer ref f s) =
  map (fun p => if Nat.eqb (p_ref p) ref then f p else p) (all_peers s).
Proof.
  unfold all_peers, peers_of, update_peer. simpl.
  induction (rooms s) as [|[k r] rs IH]; simpl; [reflexivity|].
  rewrite map_app, <- IH, values_map_values. reflexivity.
Qed.

(** The peer found for a socket is still the one found after it has been
    mutated in place. *)
Lemma getPeerBySocket_update_peer (s : state) (socket : string) (P : peer)
  (f : peer -> peer) :
  (forall p, p_socket (f p) = p_socket p) ->
  getPeerBySocket s socket = Some P ->
  getPeerBySocket (update_peer (p_ref P) f s) socket = Some (f P).
Proof.
  intros Hf. unfold getPeerBySocket.
  rewrite !first_peer_in_rooms_flat.
  fold (peers_of (rooms s)). fold (peers_of (rooms (update_peer (p_ref P) f s))).
  fold (all_peers s). fold (all_peers (update_peer (p_ref P) f s)).
  rewrite all_peers_update_peer, first_peer_map.
  - intros ->. simpl. now rewrite Nat.eqb_refl.
  - intros p. destruct (p_ref p =? p_ref P)%nat; [|reflexivity].
    now rewrite Hf.
Qed.

(** A [produce] on a transport of the peer that the engine accepts. *)
Lemma produce_run (s : state) (socket transportId kind rtpParameters : string)
  (P : peer) (t : transport) (pr : producer) :
  getPeerBySocket s socket = Some P ->
  JsMap.get transportId (transports P) = Some t ->
  step s (Produce socket transportId kind rtpParameters true (Ok pr)) =
    (update_peer (p_ref P) (set_producers (JsMap.set (pr_id pr) pr)) s,
     Engine (TransportProduce (t_id t) kind rtpParameters)
       :: new_producer_emission s socket P pr ++ [Ack (RProduced (pr_id pr))]).
Proof.
  intros HP Ht. unfold new_producer_emission.
  unfold_handlers; unfold_monad. simpl. rewrite HP, Ht. simpl.
  unfold getRoomByPeer. rewrite room_with_peer_update_peer.
  destruct (room_with_peer (p_id P) (rooms s)) as [roomId|]; simpl;
    [destruct (falsy roomId)|]; reflexivity.
Qed.

(** A [consume] on a transport of the peer, of a producer that some peer
    owns, that the engine accepts. *)
Lemma consume_run (s : state) (socket transportId producerId rtpCaps : string)
  (P owner : peer) (t : transport) (pr : producer) (roomId : string)
  (roomObj : room) (c : consumer) :
  getPeerBySocket s socket = Some P ->
  JsMap.get transportId (transports P) = Some t ->
  getPeerByProducerId s producerId = Some owner ->
  JsMap.get producerId (producers owner) = Some pr ->
  getRoomByPeer s P = Some roomId ->
  falsy roomId = false ->
  JsMap.get roomId (rooms s) = Some roomObj ->
  step s (Consume socket transportId producerId rtpCaps true
            {| canConsume := Ok true; consumed := Ok c |}) =
    (update_peer (p_ref P) (set_consumers (JsMap.set (c_id c) c)) s,
     [Engine (CanConsume (r_id (rm_router roomObj)) producerId rtpCaps);
      Engine (TransportConsume (t_id t) producerId rtpCaps false);
      Ack (RConsumed (c_id c) (c_producerId c) (c_kind c) (c_rtpParameters c))]).
Proof.
  intros HP Ht Ho Hpr HR HF HG.
  unfold_handlers; unfold_monad. simpl.
  rewrite HP, Ht, Ho, Hpr, HR, HF, HG. reflexivity.
Qed.

Lemma first_peer_test (test : peer -> bool) (rs : list room) (p : peer) :
  first_peer_in_rooms test rs = Some p -> test p = true.
Proof.
  rewrite first_peer_in_rooms_flat. intros H.
  now apply first_peer_Some in H.
Qed.

(** ** What [join-room] does *)

Lemma getOrCreateRoom_run (roomId : string) (res : result router) (s : state) :
  getOrCreateRoom roomId res s =
  match JsMap.get roomId (rooms s) with
  | Some r => (Next r, s, [])
  | None =>
      match res with
      | Ok rt =>
          (Next {| rm_router := rt; peers := JsMap.empty |},
           {| rooms := JsMap.set roomId {| rm_router := rt; peers := JsMap.empty |}
                         (rooms s);
              next_ref := next_ref s |},
           [Engine CreateRouter])
      | Throw e => (Raised e, s, [Engine CreateRouter])
      end
  end.
Proof.
  unfold getOrCreateRoom. unfold_monad.
  destruct (JsMap.get roomId (rooms s)); [reflexivity|].
  now destruct res.
Qed.

(** A [join-room] whose transport setup throws. *)
Lemma join_run_throw (s : state) (socket roomId peerId : string)
  (eng : join_engine) (r : room) (s1 : state) (l0 : list effect) (e : string) :
  falsy roomId = false -> falsy peerId = false ->
  getOrCreateRoom roomId (createRouter eng) s = (Next r, s1, l0) ->
  JsMap.has peerId (peers r) = false ->
  setup_outcome eng = Throw e ->
  step s (JoinRoom socket roomId peerId true eng) =
    (s1, l0 ++ setup_calls (r_id (rm_router r)) eng ++ [Ack (RError e)]).
Proof.
  intros HR HP Hroom Hhas Hsetup.
  unfold step, run, handler, join_room, try_catch. simpl.
  rewrite HR, HP. simpl. unfold bind at 1. rewrite Hroom, Hhas.
  unfold setup_outcome in Hsetup. unfold setup_calls.
  unfold_monad.
  destruct (createSendTransport eng); [|injection Hsetup as ->; done_log].
  destruct (setSendBitrate eng); [|injection Hsetup as ->; done_log].
  destruct (createRecvTransport eng); [|injection Hsetup as ->; done_log].
  destruct (setRecvBitrate eng); [discriminate|injection Hsetup as ->; done_log].
Qed.

(** A [join-room] that goes through. *)
Lemma join_run_ok (s : state) (socket roomId peerId : string)
  (eng : join_engine) (r : room) (s1 : state) (l0 : list effect)
  (sendTransport recvTransport : transport) :
  falsy roomId = false -> falsy peerId = false ->
  getOrCreateRoom roomId (createRouter eng) s = (Next r, s1, l0) ->
  JsMap.has peerId (peers r) = false ->
  setup_outcome eng = Ok (sendTransport, recvTransport) ->
  step s (JoinRoom socket roomId peerId true eng) =
    (after_join s1 socket roomId peerId sendTransport recvTransport,
     l0 ++ setup_calls (r_id (rm_router r)) eng ++
     [SocketJoin socket roomId;
      Emit socket roomId (PeerJoined peerId);
      Ack (RJoined (describe sendTransport) (describe recvTransport)
                   (rtpCapabilities (rm_router r)))]).
Proof.
  intros HR HP Hroom Hhas Hsetup.
  unfold step, run, handler, join_room, try_catch. simpl.
  rewrite HR, HP. simpl. unfold bind at 1. rewrite Hroom, Hhas.
  unfold setup_outcome in Hsetup. unfold setup_calls, after_join.
  unfold_monad. unfold new_peer.
  destruct (createSendTransport eng); [|discriminate].
  destruct (setSendBitrate eng); [|discriminate].
  destruct (createRecvTransport eng); [|discriminate].
  destruct (setRecvBitrate eng); [|discriminate].
  injection Hsetup as -> ->. done_log.
Qed.

Lemma peers_of_app (rs1 rs2 : JsMap.t room) :
  peers_of (rs1 ++ rs2) = peers_of rs1 ++ peers_of rs2.
Proof.
  unfold peers_of, JsMap.values. now rewrite map_app, flat_map_app.
Qed.

Lemma all_peers_peers_of (s : state) : all_peers s = peers_of (rooms s).
Proof. reflexivity. Qed.

Lemma router_acquired_run (s : state) (roomId : string) (eng : join_engine)
  (r : room) :
  router_acquired s roomId eng = Some r ->
  exists s1 l0,
    getOrCreateRoom roomId (createRouter eng) s = (Next r, s1, l0) /\
    all_peers s1 = all_peers s /\ next_ref s1 = next_ref s /\
    existsb is_close l0 = false /\
    (s1 = s \/
     JsMap.get roomId (rooms s) = None /\ peers r = [] /\
     rooms s1 = rooms s ++ [(roomId, r)]).
Proof.
  unfold router_acquired. rewrite getOrCreateRoom_run.
  destruct (JsMap.get roomId (rooms s)) as [r0|] eqn:Hget.
  - intros [= ->]. exists s, []. repeat split; auto.
  - destruct (createRouter eng) as [rt|]; [|discriminate].
    intros [= <-]. eexists _, _. split; [reflexivity|].
    rewrite !all_peers_peers_of. simpl. rewrite (set_new _ _ _ Hget).
    rewrite peers_of_app. unfold peers_of at 2. simpl. rewrite app_nil_r.
    repeat split; auto.
Qed.

Lemma no_close_in_setup (routerId : string) (eng : join_engine) :
  existsb is_close (setup_calls routerId eng) = false.
Proof.
  unfold setup_calls.
  destruct (createSendTransport eng); simpl; [|reflexivity].
  destruct (setSendBitrate eng); simpl; [|reflexivity].
  now destruct (createRecvTransport eng).
Qed.

(** ** Well-formed registries *)

Lemma wf_iff (s : state) :
  wf s = true <->
  NoDup (JsMap.keys (rooms s)) /\
  (forall roomId r, In (roomId, r) (rooms s) -> room_good roomId r).
Proof.
  split.
  - intros Hwf. split; [now apply wf_rooms|].
    intros roomId r Hin. now apply (wf_room s).
  - intros [Hnd Hgood]. unfold wf. apply andb_true_iff. split.
    + now apply distinct_NoDup.
    + apply forallb_forall. intros [roomId r] Hin.
      destruct (Hgood _ _ Hin) as (Hf & Hk & Hid).
      unfold room_ok. simpl. rewrite Hf. simpl.
      apply andb_true_iff. split; [now apply distinct_NoDup|].
      apply forallb_forall. intros [k p] Hp. simpl.
      apply String.eqb_eq. now apply Hid.
Qed.

Lemma In_map_values {V W : Type} (f : V -> W) (m : JsMap.t V) (k : string)
  (w : W) :
  In (k, w) (JsMap.map_values f m) -> exists v, In (k, v) m /\ w = f v.
Proof.
  unfold JsMap.map_values. rewrite in_map_iff.
  intros ([k' v] & E & Hin). simpl in E. injection E as -> <-. eauto.
Qed.

Lemma wf_update_peer (ref : nat) (f : peer -> peer) (s : state) :
  keeps_identity f -> wf s = true -> wf (update_peer ref f s) = true.
Proof.
  intros Hf. rewrite !wf_iff. intros [Hnd Hgood].
  unfold update_peer. simpl. rewrite keys_map_values. split; [assumption|].
  intros roomId r' Hin.
  apply In_map_values in Hin as (r & Hin & ->).
  destruct (Hgood _ _ Hin) as (Hfy & Hk & Hid).
  unfold room_good. simpl. rewrite keys_map_values.
  repeat split; try assumption.
  intros k p' Hp. apply In_map_values in Hp as (p & Hp & ->).
  destruct (p_ref p =? ref)%nat; [|now apply Hid].
  destruct (Hf p) as (-> & _ & _). now apply Hid.
Qed.

Lemma has_false_not_In {V : Type} (k : string) (m : JsMap.t V) :
  JsMap.has k m = false -> ~ In k (JsMap.keys m).
Proof.
  unfold JsMap.has. destruct (JsMap.get k m) eqn:E; [discriminate|].
  intros _. now apply get_not_In.
Qed.

Lemma NoDup_keys_set {V : Type} (k : string) (v : V) (m : JsMap.t V) :
  NoDup (JsMap.keys m) -> NoDup (JsMap.keys (JsMap.set k v m)).
Proof.
  intros Hnd. rewrite keys_set.
  destruct (JsMap.has k m) eqn:E; [assumption|].
  apply has_false_not_In in E.
  apply NoDup_rev in Hnd. rewrite <- (rev_involutive (_ ++ _)).
  apply NoDup_rev. rewrite rev_app_distr. simpl.
  constructor; [|assumption]. now rewrite <- in_rev.
Qed.

Lemma NoDup_keys_delete {V : Type} (k : string) (m : JsMap.t V) :
  NoDup (JsMap.keys m) -> NoDup (JsMap.keys (JsMap.delete k m)).
Proof.
  unfold JsMap.keys, JsMap.delete.
  induction m as [|[k' v] m IH]; simpl; [auto|].
  intros Hnd. inversion Hnd as [|? ? Hn Hnd']; subst.
  destruct (negb (String.eqb k k')); simpl; [|auto].
  constructor; [|auto].
  rewrite in_map_iff. intros ([k2 v2] & E & Hin). simpl in E. subst.
  apply filter_In in Hin as [Hin _]. apply Hn.
  apply in_map_iff. now exists (k', v2).
Qed.

Lemma wf_update_room (roomId : string) (f : room -> room) (s : state) :
  (forall r, JsMap.get roomId (rooms s) = Some r ->
             room_good roomId r -> room_good roomId (f r)) ->
  wf s = true -> wf (update_room roomId f s) = true.
Proof.
  intros Hf Hwf. pose proof Hwf as Hwf'. revert Hwf'.
  rewrite !wf_iff. intros [Hnd Hgood]. unfold update_room. simpl.
  destruct (JsMap.get roomId (rooms s)) as [r|] eqn:Hget; [|auto].
  split; [now apply NoDup_keys_set|].
  intros k r' Hin. apply In_set in Hin as [E|Hin]; [|auto].
  injection E as -> ->. apply Hf; [reflexivity|].
  apply Hgood. now apply get_In.
Qed.

Lemma wf_delete_room (roomId : string) (s : state) :
  wf s = true -> wf (delete_room roomId s) = true.
Proof.
  rewrite !wf_iff. intros [Hnd Hgood]. unfold delete_room. simpl.
  split; [now apply NoDup_keys_delete|].
  intros k r Hin. apply In_delete in Hin as [Hin _]. auto.
Qed.

Lemma room_good_set_peer (roomId peerId : string) (P : peer) (r : room) :
  p_id P = peerId ->
  room_good roomId r ->
  room_good roomId (set_peers (JsMap.set peerId P) r).
Proof.
  intros HP (Hf & Hnd & Hid). unfold room_good. simpl.
  repeat split; [assumption|now apply NoDup_keys_set|].
  intros k p Hin. apply In_set in Hin as [E|Hin]; [|auto].
  now injection E as -> ->.
Qed.

Lemma room_good_delete_peer (roomId peerId : string) (r : room) :
  room_good roomId r ->
  room_good roomId (set_peers (JsMap.delete peerId) r).
Proof.
  intros (Hf & Hnd & Hid). unfold room_good. simpl.
  repeat split; [assumption|now apply NoDup_keys_delete|].
  intros k p Hin. apply In_delete in Hin as [Hin _]. auto.
Qed.

Lemma wf_next_ref (s : state) (n : nat) :
  wf {| rooms := rooms s; next_ref := n |} = wf s.
Proof. reflexivity. Qed.

(** The registry that [getOrCreateRoom] leaves is well formed. *)
Lemma wf_getOrCreateRoom (s s1 : state) (roomId : string) (res : result router)
  (r : room) (l0 : list effect) :
  falsy roomId = false ->
  getOrCreateRoom roomId res s = (Next r, s1, l0) ->
  wf s = true ->
  wf s1 = true /\ JsMap.get roomId (rooms s1) = Some r.
Proof.
  intros Hf. rewrite getOrCreateRoom_run.
  destruct (JsMap.get roomId (rooms s)) as [r0|] eqn:Hget.
  - intros [= <- <- <-]. auto.
  - destruct res as [rt|]; [|discriminate].
    intros [= <- <- <-] Hwf. simpl. rewrite get_set_same. split; [|reflexivity].
    revert Hwf. rewrite !wf_iff. simpl. intros [Hnd Hgood].
    split; [now apply NoDup_keys_set|].
    intros k r' Hin. apply In_set in Hin as [E|Hin]; [|auto].
    injection E as -> ->. repeat split; [assumption|constructor|].
    intros k p [].
Qed.

(** ** The registry after one event *)

Lemma setup_outcome_cases (eng : join_engine) :
  (exists e, setup_outcome eng = Throw e) \/
  (exists st rt, setup_outcome eng = Ok (st, rt)).
Proof.
  destruct (setup_outcome eng) as [[st rt]|e]; eauto.
Qed.

(** [join-room] leaves the registry as it was, or with one more room
    that has no peer, or with one more peer. *)
Lemma join_cases (s : state) (socket roomId peerId : string) (callback : bool)
  (eng : join_engine) :
  let s' := fst (step s (JoinRoom socket roomId peerId callback eng)) in
  s' = s \/
  (exists rt e,
     callback = true /\ falsy roomId = false /\ falsy peerId = false /\
     JsMap.get roomId (rooms s) = None /\
     createRouter eng = Ok rt /\ setup_outcome eng = Throw e /\
     s' = {| rooms := rooms s ++ [(roomId, {| rm_router := rt;
                                               peers := JsMap.empty |})];
             next_ref := next_ref s |}) \/
  (exists r s1 l0 st rt,
     callback = true /\ falsy roomId = false /\ falsy peerId = false /\
     getOrCreateRoom roomId (createRouter eng) s = (Next r, s1, l0) /\
     JsMap.has peerId (peers r) = false /\
     setup_outcome eng = Ok (st, rt) /\
     s' = after_join s1 socket roomId peerId st rt).
Proof.
  intros s'. subst s'.
  destruct callback; [|left; reflexivity].
  destruct (falsy roomId) eqn:HR.
  { left. unfold_handlers. unfold_monad. simpl. now rewrite HR. }
  destruct (falsy peerId) eqn:HP.
  { left. unfold_handlers. unfold_monad. simpl. now rewrite HR, HP. }
  destruct (getOrCreateRoom roomId (createRouter eng) s) as [[fl s1] l0] eqn:Hrun.
  pose proof Hrun as Hrun'. rewrite getOrCreateRoom_run in Hrun'.
  remember (createRouter eng) as cr eqn:Hcr in Hrun'. symmetry in Hcr.
  destruct fl as [r| |e].
  - destruct (JsMap.has peerId (peers r)) eqn:Hhas.
    { destruct (JsMap.get roomId (rooms s)) as [r0|] eqn:Hget.
      - injection Hrun' as -> <- <-. left.
        unfold step, run, handler, join_room, try_catch. simpl.
        rewrite HR, HP. simpl. unfold bind at 1. rewrite Hrun, Hhas.
        reflexivity.
      - destruct cr; [|discriminate].
        injection Hrun' as <- _ _. discriminate. }
    destruct (setup_outcome_cases eng) as [[e He]|(st & rt & Hok)].
    + rewrite (join_run_throw _ _ _ _ _ _ _ _ _ HR HP Hrun Hhas He). simpl.
      destruct (JsMap.get roomId (rooms s)) as [r0|] eqn:Hget.
      * injection Hrun' as _ <- _. now left.
      * destruct cr as [rt|]; [|discriminate].
        injection Hrun' as _ <- _. right. left. exists rt, e.
        rewrite (set_new _ _ _ Hget). auto 10.
    + rewrite (join_run_ok _ _ _ _ _ _ _ _ _ _ HR HP Hrun Hhas Hok). simpl.
      right. right. exists r, s1, l0, st, rt. auto 10.
  - destruct (JsMap.get roomId (rooms s)); [discriminate|].
    destruct cr; discriminate.
  - destruct (JsMap.get roomId (rooms s)); [discriminate|].
    destruct cr; [discriminate|].
    injection Hrun' as _ <- _. left.
    unfold step, run, handler, join_room, try_catch. simpl.
    rewrite HR, HP. simpl. unfold bind at 1. rewrite Hrun. reflexivity.
Qed.

(** Every other request and every engine callback leaves the registry as
    it was or mutates one peer object in place. *)
Lemma request_cases (s : state) (e : event) :
  match e with JoinRoom _ _ _ _ _ | Disconnect _ => False | _ => True end ->
  fst (step s e) = s \/
  exists ref f, keeps_identity f /\ fst (step s e) = update_peer ref f s.
Proof.
  assert (Hp : forall g, keeps_identity (set_producers g)) by (intros g p; auto).
  assert (Hc : forall g, keeps_identity (set_consumers g)) by (intros g p; auto).
  destruct e; intros He; try contradiction;
    unfold_handlers; unfold_monad; simpl;
    repeat (branch; simpl; auto); eauto.
Qed.

(** ** Every reachable registry is well formed *)

Lemma wf_after_join (s1 : state) (socket roomId peerId : string)
  (st rt : transport) :
  wf s1 = true -> wf (after_join s1 socket roomId peerId st rt) = true.
Proof.
  intros Hwf. unfold after_join.
  apply wf_update_peer; [intros p; auto|].
  apply wf_update_peer; [intros p; auto|].
  apply wf_update_room; [|exact Hwf].
  intros r _. now apply room_good_set_peer.
Qed.

Lemma wf_after_disconnect (s : state) (socket : string) (P : peer)
  (roomId : string) (r : room) :
  wf s = true -> wf (fst (after_disconnect s socket P roomId r)) = true.
Proof.
  intros Hwf. unfold after_disconnect.
  assert (H1 : wf (update_room roomId (set_peers (JsMap.delete (p_id P))) s)
               = true).
  { apply wf_update_room; [|exact Hwf].
    intros r0 _. apply room_good_delete_peer. }
  destruct (JsMap.size _ =? 0)%nat; simpl; [|exact H1].
  now apply wf_delete_room.
Qed.

Lemma wf_step (s : state) (e : event) :
  wf s = true -> wf (fst (step s e)) = true.
Proof.
  intros Hwf.
  destruct e.
  1: { destruct (join_cases s socket roomId peerId callback eng)
         as [->|[(rt & e & _ & HR & _ & Hget & Hrt & _ & ->)
                |(r & s1 & l0 & st & rt' & _ & HR & _ & Hrun & _ & _ & ->)]].
       - exact Hwf.
       - rewrite <- (set_new _ _ _ Hget).
         refine (proj1 (wf_getOrCreateRoom s _ roomId (Ok rt) _ _ HR _ Hwf)).
         rewrite getOrCreateRoom_run, Hget. reflexivity.
       - apply wf_after_join.
         exact (proj1 (wf_getOrCreateRoom _ _ _ _ _ _ HR Hrun Hwf)). }
  6: { destruct (disconnect_cases s socket)
         as [->|(P & roomId & r & _ & _ & _ & _ & ->)]; [exact Hwf|].
       now apply wf_after_disconnect. }
  all: match goal with
       | |- wf (fst (step ?s0 ?e)) = true =>
           destruct (request_cases s0 e I) as [E|(ref0 & f & Hf & E)];
           rewrite E; [exact Hwf|now apply wf_update_peer]
       end.
Qed.

Lemma reachable_wf (s : state) : reachable s -> wf s = true.
Proof.
  induction 1 as [|s e _ IH]; [reflexivity|]. now apply wf_step.
Qed.

Lemma reachable_exec (es : list event) (s : state) :
  reachable s -> reachable (fst (exec s es)).
Proof.
  revert s. induction es as [|e es IH]; intros s Hs; simpl; [assumption|].
  destruct (step s e) as [s1 l1] eqn:E1.
  specialize (IH s1). destruct (exec s1 es) as [s2 l2]. simpl in *.
  apply IH. replace s1 with (fst (step s e)) by now rewrite E1.
  now constructor.
Qed.

(** ** Rooms without peers *)







(** ** The peers of one socket *)

Lemma In_get_NoDup {V : Type} (k : string) (v : V) (m : JsMap.t V) :
  NoDup (JsMap.keys m) -> In (k, v) m -> JsMap.get k m = Some v.
Proof.
  induction m as [|[k' v'] m IH]; simpl; [contradiction|].
  intros Hnd [E|Hin].
  - injection E as -> ->. now rewrite String.eqb_refl.
  - inversion Hnd as [|? ? Hn Hnd']; subst.
    destruct (String.eqb_spec k k') as [->|Hne]; [|auto].
    exfalso. apply Hn. unfold JsMap.keys. apply in_map_iff. now exists (k', v).
Qed.



Lemma values_app {V : Type} (m1 m2 : JsMap.t V) :
  JsMap.values (m1 ++ m2) = JsMap.values m1 ++ JsMap.values m2.
Proof. apply map_app. Qed.

Lemma peers_of_split (pre post : JsMap.t room) (roomId : string) (r : room) :
  peers_of (pre ++ (roomId, r) :: post) =
  peers_of pre ++ JsMap.values (peers r) ++ peers_of post.
Proof. rewrite peers_of_app. reflexivity. Qed.



Lemma rooms_after_disconnect (s : state) (socket : string) (P : peer)
  (roomId : string) (r : room) (pre post : JsMap.t room) :
  rooms s = pre ++ (roomId, r) :: post ->
  ~ In roomId (JsMap.keys pre) -> ~ In roomId (JsMap.keys post) ->
  peers_of (rooms (fst (after_disconnect s socket P roomId r))) =
  peers_of pre ++ JsMap.values (JsMap.delete (p_id P) (peers r))
  ++ peers_of post.
Proof.
  intros E Hn1 Hn2.
  assert (Hup : rooms (update_room roomId
                         (set_peers (JsMap.delete (p_id P))) s) =
                pre ++ (roomId, set_peers (JsMap.delete (p_id P)) r) :: post).
  { unfold update_room. cbn [rooms].
    rewrite E, (get_at _ _ _ _ Hn1). now apply set_at. }
  unfold after_disconnect. cbn [set_peers peers].
  destruct (JsMap.size (JsMap.delete (p_id P) (peers r)) =? 0)%nat eqn:Hsz;
    cbn [fst].
  - unfold delete_room. cbn [rooms]. rewrite Hup, delete_at by assumption.
    destruct (JsMap.delete (p_id P) (peers r)); [|discriminate].
    now rewrite peers_of_app.
  - rewrite Hup, peers_of_split. reflexivity.
Qed.





(** ** Peer objects keep their identity *)

Lemma refs_ok_update_peer (ref : nat) (f : peer -> peer) (s : state) :
  keeps_identity f -> refs_ok s -> refs_ok (update_peer ref f s).
Proof.
  intros Hf [Hnd Hlt]. unfold refs_ok. rewrite all_peers_update_peer.
  assert (Hg : forall p, p_ref (if (p_ref p =? ref)%nat then f p else p)
                         = p_ref p).
  { intros p. destruct (p_ref p =? ref)%nat; [|reflexivity].
    now destruct (Hf p) as (_ & _ & ->). }
  split.
  - rewrite map_map. erewrite map_ext; [exact Hnd|]. exact Hg.
  - rewrite Forall_map. revert Hlt. apply Forall_impl.
    intros p Hp. now rewrite Hg.
Qed.

Lemma all_peers_insert (s1 : state) (roomId peerId : string) (P : peer)
  (r : room) (n : nat) :
  JsMap.get roomId (rooms s1) = Some r ->
  JsMap.has peerId (peers r) = false ->
  Permutation
    (all_peers (update_room roomId (set_peers (JsMap.set peerId P))
                  {| rooms := rooms s1; next_ref := n |}))
    (P :: all_peers s1).
Proof.
  intros Hget Hhas. rewrite !all_peers_peers_of.
  destruct (get_split _ _ _ Hget) as (pre & post & E & Hn).
  unfold update_room. cbn [rooms]. rewrite Hget, E, (set_at _ _ _ _ _ Hn).
  rewrite !peers_of_split. cbn [set_peers peers].
  assert (Hnew : JsMap.get peerId (peers r) = None).
  { unfold JsMap.has in Hhas. now destruct (JsMap.get peerId (peers r)). }
  rewrite (set_new _ _ _ Hnew), values_app. simpl.
  rewrite <- app_assoc. simpl.
  rewrite app_assoc. symmetry. rewrite app_assoc.
  apply Permutation_middle.
Qed.

Lemma refs_ok_after_join (s1 : state) (socket roomId peerId : string)
  (st rt : transport) (r : room) :
  JsMap.get roomId (rooms s1) = Some r ->
  JsMap.has peerId (peers r) = false ->
  refs_ok s1 -> refs_ok (after_join s1 socket roomId peerId st rt).
Proof.
  intros Hget Hhas [Hnd Hlt]. unfold after_join.
  apply refs_ok_update_peer; [intros p; auto|].
  apply refs_ok_update_peer; [intros p; auto|].
  set (P0 := {| p_ref := next_ref s1; p_id := peerId; p_socket := socket;
                transports := JsMap.empty; producers := JsMap.empty;
                consumers := JsMap.empty |}).
  pose proof (all_peers_insert s1 roomId peerId P0 r (S (next_ref s1))
                Hget Hhas) as Hperm.
  split.
  - apply (Permutation_NoDup (l := map p_ref (P0 :: all_peers s1))).
    + symmetry. now apply Permutation_map.
    + simpl. constructor; [|exact Hnd].
      rewrite in_map_iff. intros (q & Hq & Hin).
      rewrite Forall_forall in Hlt. specialize (Hlt _ Hin). lia.
  - apply (@Permutation_Forall _ _ (P0 :: all_peers s1)).
    + now symmetry.
    + constructor; [simpl; lia|].
      revert Hlt. apply Forall_impl. unfold update_room. simpl. intros; lia.
Qed.

(** Taking an entry out of a map takes one peer out of the list. *)
Lemma NoDup_refs_delete (l1 l3 : list peer) (k : string) (m : JsMap.t peer) :
  NoDup (map p_ref (l1 ++ JsMap.values m ++ l3)) ->
  NoDup (map p_ref (l1 ++ JsMap.values (JsMap.delete k m) ++ l3)).
Proof.
  unfold JsMap.values, JsMap.delete.
  induction m as [|a m IH]; simpl; [auto|].
  intros Hnd.
  assert (Hrest : NoDup (map p_ref (l1 ++ map snd m ++ l3))).
  { rewrite map_app in Hnd |- *. simpl in Hnd.
    now apply NoDup_remove_1 in Hnd. }
  destruct (negb (String.eqb k (fst a))); [|auto]. simpl.
  rewrite map_app in Hnd |- *. simpl in Hnd |- *.
  apply NoDup_remove_2 in Hnd.
  eapply Permutation_NoDup; [apply Permutation_middle|].
  constructor.
  - intros Hin. apply Hnd. rewrite in_app_iff in Hin |- *.
    destruct Hin as [Hin|Hin]; [now left|right].
    rewrite in_map_iff in Hin |- *. destruct Hin as (x & Ex & Hx).
    exists x. split; [assumption|].
    rewrite in_app_iff in Hx |- *. destruct Hx as [Hx|Hx]; [left|now right].
    rewrite in_map_iff in Hx |- *. destruct Hx as (y & Ey & Hy).
    exists y. split; [assumption|]. now apply filter_In in Hy.
  - rewrite <- map_app. auto.
Qed.

Lemma refs_ok_after_disconnect (s : state) (socket : string) (P : peer)
  (roomId : string) (r : room) :
  wf s = true ->
  JsMap.get roomId (rooms s) = Some r ->
  refs_ok s -> refs_ok (fst (after_disconnect s socket P roomId r)).
Proof.
  intros Hwf HG [Hnd Hlt].
  destruct (get_split _ _ _ HG) as (pre & post & E & Hn1).
  pose proof (wf_rooms _ Hwf) as Hk. rewrite E in Hk.
  destruct (NoDup_keys_split _ _ _ _ Hk) as [_ Hn2].
  pose proof (rooms_after_disconnect s socket P roomId r pre post E Hn1 Hn2)
    as Hafter.
  assert (Hbefore : all_peers s =
                    peers_of pre ++ JsMap.values (peers r) ++ peers_of post).
  { rewrite all_peers_peers_of, E. apply peers_of_split. }
  unfold refs_ok. rewrite all_peers_peers_of, Hafter.
  rewrite Hbefore in Hnd, Hlt.
  assert (Hnext : next_ref (fst (after_disconnect s socket P roomId r))
                  = next_ref s).
  { unfold after_disconnect. now destruct (JsMap.size _ =? 0)%nat. }
  rewrite Hnext. split.
  - now apply NoDup_refs_delete.
  - rewrite !Forall_app in Hlt |- *. destruct Hlt as (H1 & H2 & H3).
    repeat split; try assumption.
    rewrite Forall_forall in H2 |- *. intros q Hq. apply H2.
    apply In_values in Hq as [k Hq]. apply In_delete in Hq as [Hq _].
    unfold JsMap.values. apply in_map_iff. now exists (k, q).
Qed.

Lemma refs_ok_step (s : state) (e : event) :
  wf s = true -> refs_ok s -> refs_ok (fst (step s e)).
Proof.
  intros Hwf Hrefs.
  destruct e.
  1: { destruct (join_cases s socket roomId peerId callback eng)
         as [->|[(rt & e & _ & HR & _ & Hget & Hrt & _ & ->)
                |(r & s1 & l0 & st & rt' & _ & HR & _ & Hrun & Hhas & _ & ->)]].
       - exact Hrefs.
       - unfold refs_ok, all_peers, peers_of in *. simpl.
         unfold JsMap.values in *. rewrite map_app, flat_map_app. simpl.
         now rewrite app_nil_r.
       - destruct (wf_getOrCreateRoom _ _ _ _ _ _ HR Hrun Hwf) as [_ Hget1].
         apply (refs_ok_after_join _ _ _ _ _ _ r Hget1 Hhas).
         rewrite getOrCreateRoom_run in Hrun.
         destruct (JsMap.get roomId (rooms s)) as [r1|] eqn:Hget.
         + now injection Hrun as _ <- _.
         + destruct (createRouter eng); [|discriminate].
           injection Hrun as _ <- _.
           unfold refs_ok, all_peers, peers_of in *. simpl.
           rewrite (set_new _ _ _ Hget).
           unfold JsMap.values in *. rewrite map_app, flat_map_app. simpl.
           now rewrite app_nil_r. }
  6: { destruct (disconnect_cases s socket)
         as [->|(P & roomId & r & _ & _ & _ & HG & ->)]; [exact Hrefs|].
       now apply refs_ok_after_disconnect. }
  all: match goal with
       | |- refs_ok (fst (step ?s0 ?e)) =>
           destruct (request_cases s0 e I) as [E|(ref0 & f & Hf & E)];
           rewrite E; [exact Hrefs|now apply refs_ok_update_peer]
       end.
Qed.

(** In every reachable registry the maps are well formed and the peer
    objects are distinct. *)
Lemma reachable_refs_ok (s : state) : reachable s -> refs_ok s.
Proof.
  induction 1 as [|s e Hs IH].
  - split; constructor.
  - apply refs_ok_step; [now apply reachable_wf|assumption].
Qed.

(** ** [get-producers] where peer ids are not shared between rooms *)

Lemma NoDup_map_inj {A B : Type} (f : A -> B) (l : list A) (x y : A) :
  NoDup (map f l) -> In x l -> In y l -> f x = f y -> x = y.
Proof.
  induction l as [|a l IH]; simpl; [contradiction|].
  intros Hnd Hx Hy E. inversion Hnd as [|? ? Hn Hnd']; subst.
  destruct Hx as [->|Hx], Hy as [->|Hy]; auto.
  - exfalso. apply Hn. rewrite E. now apply in_map.
  - exfalso. apply Hn. rewrite <- E. now apply in_map.
Qed.

Lemma NoDup_map_app {A B : Type} (f : A -> B) (l1 l2 : list A) :
  NoDup (map f (l1 ++ l2)) ->
  NoDup (map f l1) /\ NoDup (map f l2) /\
  (forall x y, In x l1 -> In y l2 -> f x <> f y).
Proof.
  rewrite map_app. intros Hnd. repeat split.
  - now apply NoDup_app_remove_r in Hnd.
  - now apply NoDup_app_remove_l in Hnd.
  - intros x y Hx Hy E. revert Hnd. generalize (map f l2) (in_map f _ _ Hy).
    induction l1 as [|a l1 IH]; simpl; [contradiction|].
    intros l Hl Hnd. inversion Hnd as [|? ? Hn Hnd']; subst.
    destruct Hx as [->|Hx]; [|now apply (IH Hx l)].
    apply Hn. apply in_or_app. right. now rewrite E.
Qed.

(** In a room whose peers are distinct objects stored under their ids,
    leaving out the key of [P] is leaving out [P]. *)
Lemma list_producers_others (P : peer) (m : JsMap.t peer) :
  NoDup (JsMap.keys m) ->
  (forall k q, In (k, q) m -> p_id q = k) ->
  NoDup (map p_ref (JsMap.values m)) ->
  In (p_id P, P) m ->
  list_producers (p_id P) m =
  flat_map
    (fun q =>
       if Nat.eqb (p_ref q) (p_ref P) then []
       else map (fun pe => {| pi_peerId := p_id q;
                              pi_producerId := fst pe;
                              pi_kind := pr_kind (snd pe) |})
                (producers q))
    (JsMap.values m).
Proof.
  intros Hk Hid Hrefs HP. unfold list_producers, JsMap.values.
  rewrite flat_map_concat_map, flat_map_concat_map, map_map. f_equal.
  apply map_ext_in. intros [k q] Hin. simpl.
  pose proof (Hid _ _ Hin) as Hq. subst k.
  destruct (String.eqb_spec (p_id q) (p_id P)) as [E|Hne].
  - rewrite E in Hin.
    assert (q = P) as ->.
    { pose proof (In_get_NoDup _ _ _ Hk Hin) as H1.
      pose proof (In_get_NoDup _ _ _ Hk HP) as H2. congruence. }
    now rewrite Nat.eqb_refl.
  - destruct (Nat.eqb_spec (p_ref q) (p_ref P)) as [E|_]; [|reflexivity].
    exfalso. apply Hne. f_equal.
    apply (NoDup_map_inj p_ref (map snd m)); try assumption.
    + apply in_map_iff. now exists (p_id q, q).
    + apply in_map_iff. now exists (p_id P, P).
Qed.

(** When the room found for the id of the requesting peer holds that very
    peer, [get-producers] returns the producers of the other peers of the
    peer's room. *)
Lemma get_producers_own_room (s : state) (socket : string) (P : peer)
  (roomId : string) (r : room) :
  wf s = true -> refs_ok s ->
  getPeerBySocket s socket = Some P ->
  getRoomByPeer s P = Some roomId ->
  JsMap.get roomId (rooms s) = Some r ->
  JsMap.get (p_id P) (peers r) = Some P ->
  step s (GetProducers socket true) =
    (s, [Ack (RProducers (producers_of_others P r))]) /\
  get_producers_spec s socket = Some (producers_of_others P r).
Proof.
  intros Hwf [Hrefs _] HP HR HG Hown.
  pose proof (get_In _ _ _ HG) as Hin.
  destruct (wf_room _ _ _ Hwf Hin) as (HF & Hk & Hid).
  destruct (get_split _ _ _ HG) as (pre & post & E & Hn).
  unfold all_peers in Hrefs. rewrite E, peers_of_split in Hrefs.
  destruct (NoDup_map_app _ _ _ Hrefs) as (_ & Hmid & Hpre).
  destruct (NoDup_map_app _ _ _ Hmid) as (Hroom & _ & _).
  pose proof (get_In _ _ _ Hown) as HinP.
  split.
  - unfold_handlers; unfold_monad. simpl. rewrite HP, HR, HF, HG. simpl.
    unfold producers_of_others.
    now rewrite (list_producers_others P (peers r) Hk Hid Hroom HinP).
  - unfold get_producers_spec. rewrite HP. simpl. f_equal.
    unfold room_of, JsMap.values. rewrite E, map_app. simpl.
    assert (HPr : In P (map snd (peers r))).
    { apply in_map_iff. now exists (p_id P, P). }
    assert (Hhere : existsb (fun q => Nat.eqb (p_ref q) (p_ref P))
                            (map snd (peers r)) = true).
    { apply existsb_exists. exists P. split; [assumption|apply Nat.eqb_refl]. }
    clear E Hrefs Hmid Hn Hin HG.
    induction pre as [|[k0 r0] pre IH]; simpl.
    + fold (JsMap.values (peers r)). unfold JsMap.values. now rewrite Hhere.
    + assert (Hfar : existsb (fun q => Nat.eqb (p_ref q) (p_ref P))
                             (map snd (peers r0)) = false).
      { destruct (existsb _ (map snd (peers r0))) eqn:Ex; [|reflexivity].
        apply existsb_exists in Ex as (q & Hq & Eq).
        apply Nat.eqb_eq in Eq. exfalso.
        apply (Hpre q P); [| |assumption].
        - unfold peers_of. simpl. apply in_or_app. now left.
        - apply in_or_app. now left. }
      fold (JsMap.values (peers r0)). unfold JsMap.values. rewrite Hfar.
      apply IH. intros x y Hx Hy. apply Hpre; [|assumption].
      unfold peers_of. simpl. apply in_or_app. now right.
Qed.

(** The sessions of the examples are runs of the server. *)
Example sessions_reachable :
  reachable a_alone /\ reachable a_producing /\ reachable a_and_b /\
  reachable a_and_b_producing /\ reachable a_twice /\ reachable two_rooms.
Proof. repeat split; apply reachable_exec; constructor. Qed.

(** ** Further facts about maps and the registry *)



Lemma room_eta (r : room) : {| rm_router := rm_router r; peers := peers r |} = r.
Proof. now destruct r. Qed.

Lemma map_values_id {V : Type} (f : V -> V) (m : JsMap.t V) :
  (forall v, In v (JsMap.values m) -> f v = v) -> JsMap.map_values f m = m.
Proof.
  unfold JsMap.map_values, JsMap.values.
  induction m as [|[k v] m IH]; simpl; [reflexivity|].
  intros H. rewrite H by now left. rewrite IH; [reflexivity|].
  intros v' Hv'. apply H. now right.
Qed.

(** In-place mutation of an object that is not in these rooms. *)
Lemma update_fresh (n : nat) (g : peer -> peer) (rs : JsMap.t room) :
  Forall (fun p => p_ref p <> n) (peers_of rs) ->
  JsMap.map_values
    (fun r => {| rm_router := rm_router r;
                 peers := JsMap.map_values
                            (fun p => if Nat.eqb (p_ref p) n then g p else p)
                            (peers r) |}) rs = rs.
Proof.
  intros H. apply map_values_id. intros r Hr.
  rewrite map_values_id; [apply room_eta|]. intros p Hp.
  rewrite Forall_forall in H.
  destruct (Nat.eqb_spec (p_ref p) n) as [E|_]; [|reflexivity].
  exfalso. apply (H p); [|assumption].
  unfold peers_of. apply in_flat_map. eauto.
Qed.

Lemma map_values_app {V W : Type} (f : V -> W) (m1 m2 : JsMap.t V) :
  JsMap.map_values f (m1 ++ m2) =
  JsMap.map_values f m1 ++ JsMap.map_values f m2.
Proof. apply map_app. Qed.

(** The registry after a join, room by room. *)
Lemma rooms_after_join (s1 : state) (socket roomId peerId : string)
  (st rt : transport) (r : room) (pre post : JsMap.t room) :
  refs_ok s1 ->
  rooms s1 = pre ++ (roomId, r) :: post ->
  ~ In roomId (JsMap.keys pre) ->
  JsMap.has peerId (peers r) = false ->
  rooms (after_join s1 socket roomId peerId st rt) =
    pre ++
    (roomId,
     {| rm_router := rm_router r;
        peers := peers r ++
                 [(peerId,
                   {| p_ref := next_ref s1; p_id := peerId; p_socket := socket;
                      transports := JsMap.set (t_id rt) rt [(t_id st, st)];
                      producers := []; consumers := [] |})] |}) :: post.
Proof.
  intros [_ Hlt] E Hn Hhas.
  assert (Hfresh : Forall (fun p => p_ref p <> next_ref s1) (all_peers s1)).
  { revert Hlt. apply Forall_impl. intros p Hp. lia. }
  unfold all_peers in Hfresh. rewrite E, peers_of_split in Hfresh.
  rewrite !Forall_app in Hfresh. destruct Hfresh as (Hpre & Hr & Hpost).
  assert (Hnew : JsMap.get peerId (peers r) = None).
  { unfold JsMap.has in Hhas. now destruct (JsMap.get peerId (peers r)). }
  unfold after_join. cbn [p_ref].
  set (P0 := {| p_ref := next_ref s1; p_id := peerId; p_socket := socket;
                transports := JsMap.empty; producers := JsMap.empty;
                consumers := JsMap.empty |}).
  assert (H0 : rooms (update_room roomId (set_peers (JsMap.set peerId P0))
                        {| rooms := rooms s1; next_ref := S (next_ref s1) |}) =
               pre ++ (roomId, {| rm_router := rm_router r;
                                  peers := peers r ++ [(peerId, P0)] |}) :: post).
  { unfold update_room. cbn [rooms].
    rewrite E, (get_at _ _ _ _ Hn), (set_at _ _ _ _ _ Hn).
    unfold set_peers. now rewrite (set_new _ _ _ Hnew). }
  assert (Hstep : forall g (P : peer) (s' : state),
             p_ref P = next_ref s1 ->
             rooms s' = pre ++ (roomId, {| rm_router := rm_router r;
                                           peers := peers r ++ [(peerId, P)] |})
                            :: post ->
             rooms (update_peer (next_ref s1) g s') =
               pre ++ (roomId, {| rm_router := rm_router r;
                                  peers := peers r ++ [(peerId, g P)] |})
                   :: post).
  { intros g P s' HP Es'. unfold update_peer. cbn [rooms]. rewrite Es'.
    rewrite map_values_app. simpl. cbn [fst snd rm_router peers].
    rewrite (update_fresh _ g pre Hpre), (update_fresh _ g post Hpost).
    rewrite map_values_app. simpl. rewrite HP, Nat.eqb_refl.
    rewrite map_values_id; [reflexivity|].
    intros p Hp. rewrite Forall_forall in Hr.
    destruct (Nat.eqb_spec (p_ref p) (next_ref s1)) as [Ep|_]; [|reflexivity].
    exfalso. now apply (Hr p). }
  rewrite (Hstep (set_transports (JsMap.set (t_id rt) rt))
             (set_transports (JsMap.set (t_id st) st) P0) _ eq_refl
             (Hstep (set_transports (JsMap.set (t_id st) st)) P0 _ eq_refl H0)).
  reflexivity.
Qed.



Lemma refs_ok_same (s s1 : state) :
  all_peers s1 = all_peers s -> next_ref s1 = next_ref s ->
  refs_ok s -> refs_ok s1.
Proof. unfold refs_ok. now intros -> ->. Qed.









(** ** Lookups *)


Lemma first_peer_none (test : peer -> bool) (ps : list peer) :
  first_peer test ps = None <-> forall p, In p ps -> test p = false.
Proof.
  induction ps as [|q ps IH]; simpl.
  - split; [intros _ p []|reflexivity].
  - destruct (test q) eqn:Hq.
    + split; [discriminate|]. intros H.
      rewrite (H q (or_introl eq_refl)) in Hq. discriminate.
    + rewrite IH. split.
      * intros H p [<-|Hin]; auto.
      * intros H p Hin. apply H. now right.
Qed.

Lemma getPeerBySocket_all_peers (s : state) (socket : string) :
  getPeerBySocket s socket =
  first_peer (fun p => String.eqb (p_socket p) socket) (all_peers s).
Proof. unfold getPeerBySocket. now rewrite first_peer_in_rooms_flat. Qed.


Lemma has_get {V : Type} (k : string) (m : JsMap.t V) :
  JsMap.has k m = true -> exists v, JsMap.get k m = Some v.
Proof. unfold JsMap.has. destruct (JsMap.get k m); [eauto|discriminate]. Qed.


Lemma keeps_identity_set_consumers (g : JsMap.t consumer -> JsMap.t consumer) :
  keeps_identity (set_consumers g).
Proof. intros p. now repeat split. Qed.

(** ** What [get-producers] lists *)

Lemma In_list_producers (self : string) (ps : JsMap.t peer)
  (info : producer_info) :
  In info (list_producers self ps) <->
  exists q pr,
    In (pi_peerId info, q) ps /\ pi_peerId info <> self /\
    In (pi_producerId info, pr) (producers q) /\ pi_kind info = pr_kind pr.
Proof.
  unfold list_producers. rewrite in_flat_map. split.
  - intros ([k q] & Hin & H). simpl in H.
    destruct (String.eqb_spec k self) as [->|Hne]; [contradiction|].
    apply in_map_iff in H. destruct H as ([pid pr] & <- & Hpr). simpl.
    now exists q, pr.
  - intros (q & pr & Hin & Hne & Hpr & Hk).
    exists (pi_peerId info, q). split; [exact Hin|]. simpl.
    destruct (String.eqb_spec (pi_peerId info) self) as [E|_]; [contradiction|].
    apply in_map_iff. exists (pi_producerId info, pr). split; [|exact Hpr].
    simpl. rewrite <- Hk. now destruct info.
Qed.

(** ** A peer that has left *)

Lemma NoDup_map_others {A B : Type} (f : A -> B) (l1 l2 : list A) (x : A) :
  NoDup (map f (l1 ++ x :: l2)) ->
  Forall (fun y => f y <> f x) (l1 ++ l2).
Proof.
  rewrite map_app. simpl. intros H. apply NoDup_remove_2 in H.
  rewrite <- map_app in H. apply Forall_forall. intros y Hy E.
  apply H. rewrite <- E. now apply in_map.
Qed.

(** After the disconnect that removes the peer object [P] from its room,
    no peer of the registry is that object. *)
Lemma disconnect_forgets_ref (s : state) (socket : string) (P : peer)
  (roomId : string) (r : room) :
  wf s = true -> refs_ok s ->
  JsMap.get roomId (rooms s) = Some r ->
  JsMap.get (p_id P) (peers r) = Some P ->
  Forall (fun q => p_ref q <> p_ref P)
         (all_peers (fst (after_disconnect s socket P roomId r))).
Proof.
  intros Hwf [Hnd _] Hget HP.
  destruct (get_split _ _ _ Hget) as (pre & post & E & Hn1).
  pose proof (wf_rooms _ Hwf) as Hkeys. rewrite E in Hkeys.
  destruct (NoDup_keys_split _ _ _ _ Hkeys) as [_ Hn2].
  unfold all_peers.
  rewrite (rooms_after_disconnect s socket P roomId r pre post E Hn1 Hn2).
  unfold all_peers in Hnd. rewrite E, peers_of_split in Hnd.
  destruct (wf_room s roomId r Hwf (get_In _ _ _ Hget)) as (_ & Hpk & _).
  destruct (get_split _ _ _ HP) as (m1 & m2 & Em & Hm1).
  rewrite Em in Hpk.
  destruct (NoDup_keys_split _ _ _ _ Hpk) as [_ Hm2].
  rewrite Em, delete_at by assumption.
  rewrite Em in Hnd. rewrite !values_app in *. simpl in Hnd.
  rewrite <- app_assoc in Hnd. simpl in Hnd. rewrite app_assoc in Hnd.
  apply NoDup_map_others in Hnd.
  rewrite <- !app_assoc in *. exact Hnd.
Qed.

Lemma update_peer_fresh (ref : nat) (f : peer -> peer) (s : state) :
  Forall (fun p => p_ref p <> ref) (all_peers s) -> update_peer ref f s = s.
Proof.
  intros H. unfold update_peer. rewrite (update_fresh ref f (rooms s) H).
  now destruct s.
Qed.

(** ** Maps keyed by the id of their values *)

Lemma keyed_by_id_iff {V : Type} (id : V -> string) (m : JsMap.t V) :
  keyed_by_id id m = true <->
  NoDup (JsMap.keys m) /\ (forall k v, In (k, v) m -> id v = k).
Proof.
  unfold keyed_by_id.
  rewrite andb_true_iff, distinct_NoDup, forallb_forall.
  apply and_iff_compat_l. split.
  - intros H k v Hin. apply String.eqb_eq. exact (H (k, v) Hin).
  - intros H [k v] Hin. apply String.eqb_eq. simpl. now apply H.
Qed.

Lemma keyed_by_id_set {V : Type} (id : V -> string) (v : V) (m : JsMap.t V) :
  keyed_by_id id m = true -> keyed_by_id id (JsMap.set (id v) v m) = true.
Proof.
  rewrite !keyed_by_id_iff. intros [Hnd Hid]. split.
  - now apply NoDup_keys_set.
  - intros k' v' Hin. apply In_set in Hin.
    destruct Hin as [E|Hin]; [now injection E as -> ->|now apply Hid].
Qed.

Lemma keyed_by_id_delete {V : Type} (id : V -> string) (k : string)
  (m : JsMap.t V) :
  keyed_by_id id m = true -> keyed_by_id id (JsMap.delete k m) = true.
Proof.
  rewrite !keyed_by_id_iff. intros [Hnd Hid]. split.
  - now apply NoDup_keys_delete.
  - intros k' v' Hin. apply In_delete in Hin. now apply Hid.
Qed.

Lemma preserves_ok_producers (g : JsMap.t producer -> JsMap.t producer) :
  (forall m, keyed_by_id pr_id m = true -> keyed_by_id pr_id (g m) = true) ->
  preserves_ok (set_producers g).
Proof.
  intros Hg. split; [intros p; now repeat split|].
  intros p. split; [reflexivity|]. unfold peer_ok. simpl.
  rewrite !andb_true_iff. intros ((((H1 & H2) & H3) & H4) & H5).
  repeat split; auto.
Qed.

Lemma preserves_ok_consumers (g : JsMap.t consumer -> JsMap.t consumer) :
  (forall m, keyed_by_id c_id m = true -> keyed_by_id c_id (g m) = true) ->
  preserves_ok (set_consumers g).
Proof.
  intros Hg. split; [intros p; now repeat split|].
  intros p. split; [reflexivity|]. unfold peer_ok. simpl.
  rewrite !andb_true_iff. intros ((((H1 & H2) & H3) & H4) & H5).
  repeat split; auto.
Qed.

(** What a request other than [join-room] does to the registry, once more:
    the mutation keeps [peer_ok] and the transports. *)
Lemma request_cases_ok (s : state) (e : event) :
  match e with JoinRoom _ _ _ _ _ | Disconnect _ => False | _ => True end ->
  fst (step s e) = s \/
  exists ref f, preserves_ok f /\ fst (step s e) = update_peer ref f s.
Proof.
  assert (Hp : forall pr,
             preserves_ok (set_producers (JsMap.set (pr_id pr) pr)))
    by (intros pr; apply preserves_ok_producers; intros m;
        apply keyed_by_id_set).
  assert (Hc : forall c, preserves_ok (set_consumers (JsMap.set (c_id c) c)))
    by (intros c; apply preserves_ok_consumers; intros m;
        apply keyed_by_id_set).
  assert (Hpd : forall k, preserves_ok (set_producers (JsMap.delete k)))
    by (intros k; apply preserves_ok_producers; intros m;
        apply keyed_by_id_delete).
  assert (Hcd : forall k, preserves_ok (set_consumers (JsMap.delete k)))
    by (intros k; apply preserves_ok_consumers; intros m;
        apply keyed_by_id_delete).
  destruct e; intros He; try contradiction;
    unfold_handlers; unfold_monad; simpl;
    repeat (branch; simpl; auto); eauto.
Qed.

Lemma peers_ok_update_peer (ref : nat) (f : peer -> peer) (s : state) :
  preserves_ok f -> peers_ok s = true -> peers_ok (update_peer ref f s) = true.
Proof.
  intros Hf. unfold peers_ok. rewrite all_peers_update_peer, !forallb_forall.
  intros H q Hq. apply in_map_iff in Hq. destruct Hq as (p & <- & Hp).
  destruct (p_ref p =? ref)%nat; [apply Hf|]; now apply H.
Qed.

Lemma peers_ok_after_join (s1 : state) (socket roomId peerId : string)
  (st rt : transport) (r : room) :
  refs_ok s1 ->
  JsMap.get roomId (rooms s1) = Some r ->
  JsMap.has peerId (peers r) = false ->
  peers_ok s1 = true ->
  peers_ok (after_join s1 socket roomId peerId st rt) = true.
Proof.
  intros Hrefs Hget Hhas. unfold peers_ok, all_peers.
  destruct (get_split _ _ _ Hget) as (pre & post & E & Hn).
  rewrite (rooms_after_join s1 socket roomId peerId st rt r pre post
             Hrefs E Hn Hhas).
  rewrite E, !peers_of_split. cbn [peers].
  rewrite values_app, !forallb_app. simpl.
  rewrite !andb_true_iff. intros (H1 & H2 & H3).
  repeat split; try assumption.
  unfold peer_ok, keyed_by_id. simpl.
  destruct (String.eqb_spec (t_id rt) (t_id st)) as [E'|Hne]; simpl.
  - now rewrite String.eqb_refl.
  - rewrite !String.eqb_refl. simpl.
    destruct (String.eqb_spec (t_id st) (t_id rt)) as [E'|_];
      [now symmetry in E'|reflexivity].
Qed.

Lemma peers_ok_after_disconnect (s : state) (socket : string) (P : peer)
  (roomId : string) (r : room) :
  wf s = true ->
  JsMap.get roomId (rooms s) = Some r ->
  peers_ok s = true ->
  peers_ok (fst (after_disconnect s socket P roomId r)) = true.
Proof.
  intros Hwf HG. unfold peers_ok, all_peers.
  destruct (get_split _ _ _ HG) as (pre & post & E & Hn1).
  pose proof (wf_rooms _ Hwf) as Hk. rewrite E in Hk.
  destruct (NoDup_keys_split _ _ _ _ Hk) as [_ Hn2].
  rewrite (rooms_after_disconnect s socket P roomId r pre post E Hn1 Hn2).
  rewrite E, peers_of_split, !forallb_app, !andb_true_iff.
  intros (H1 & H2 & H3). repeat split; try assumption.
  rewrite forallb_forall in H2 |- *. intros q Hq. apply H2.
  apply In_values in Hq as [k Hq]. apply In_delete in Hq as [Hq _].
  unfold JsMap.values. apply in_map_iff. now exists (k, q).
Qed.

Lemma all_peers_new_room (s : state) (roomId : string) (rt : router) :
  peers_of (rooms s ++ [(roomId, {| rm_router := rt; peers := JsMap.empty |})])
  = all_peers s.
Proof.
  unfold all_peers, peers_of, JsMap.values.
  rewrite map_app, flat_map_app. simpl. now rewrite app_nil_r.
Qed.

Lemma getOrCreateRoom_peers (s s1 : state) (roomId : string)
  (res : result router) (r : room) (l0 : list effect) :
  getOrCreateRoom roomId res s = (Next r, s1, l0) ->
  all_peers s1 = all_peers s /\ next_ref s1 = next_ref s.
Proof.
  rewrite getOrCreateRoom_run.
  destruct (JsMap.get roomId (rooms s)) as [r1|] eqn:Hget.
  - now intros [= _ <- _].
  - destruct res; [|discriminate]. intros [= _ <- _]. split; [|reflexivity].
    unfold all_peers at 1. simpl. rewrite (set_new _ _ _ Hget).
    apply all_peers_new_room.
Qed.

Lemma peers_ok_step (s : state) (e : event) :
  wf s = true -> refs_ok s -> peers_ok s = true ->
  peers_ok (fst (step s e)) = true.
Proof.
  intros Hwf Hrefs Hok.
  destruct e.
  1: { destruct (join_cases s socket roomId peerId callback eng)
         as [->|[(rt & e & _ & HR & _ & Hget & Hrt & _ & ->)
                |(r & s1 & l0 & st & rt' & _ & HR & _ & Hrun & Hhas & _ & ->)]].
       - exact Hok.
       - unfold peers_ok, all_peers. simpl. rewrite all_peers_new_room.
         exact Hok.
       - destruct (wf_getOrCreateRoom _ _ _ _ _ _ HR Hrun Hwf) as [_ Hget1].
         destruct (getOrCreateRoom_peers _ _ _ _ _ _ Hrun) as [Hsame Hnext].
         apply (peers_ok_after_join _ _ _ _ _ _ r); try assumption.
         + now apply (refs_ok_same s).
         + unfold peers_ok. now rewrite Hsame. }
  6: { destruct (disconnect_cases s socket)
         as [->|(P & roomId & r & _ & _ & _ & HG & ->)]; [exact Hok|].
       now apply peers_ok_after_disconnect. }
  all: match goal with
       | |- peers_ok (fst (step ?s0 ?e)) = true =>
           destruct (request_cases_ok s0 e I) as [E|(ref0 & f & Hf & E)];
           rewrite E; [exact Hok|now apply peers_ok_update_peer]
       end.
Qed.

Lemma reachable_peers_ok (s : state) : reachable s -> peers_ok s = true.
Proof.
  induction 1 as [|s e Hs IH]; [reflexivity|].
  apply peers_ok_step; try assumption.
  - now apply reachable_wf.
  - now apply reachable_refs_ok.
Qed.

(** ** A socket that owns no peer *)




(** ** Whose producers can be consumed *)




(** ** A [join-room] that fails half-way *)

(** C2, as amended: if a step of [join-room] after the router has been
    acquired fails, the handler ends with the error acknowledgment, it has
    closed none of the transports created so far, and it has added no peer
    to any room. *)
Theorem failed_join_adds_no_peer (s : state) (socket roomId peerId : string)
  (eng : join_engine) (r : room) (e : string) :
  falsy roomId = false -> falsy peerId = false ->
  router_acquired s roomId eng = Some r ->
  JsMap.has peerId (peers r) = false ->
  setup_outcome eng = Throw e ->
  let after := step s (JoinRoom socket roomId peerId true eng) in
  last (snd after) (Ack RSuccess) = Ack (RError e) /\
  (forall t, In t (created eng) ->
             ~ In (Engine (TransportClose (t_id t))) (snd after)) /\
  all_peers (fst after) = all_peers s /\
  next_ref (fst after) = next_ref s.
Proof.
  intros HR HP Hacq Hhas Hsetup after. subst after.
  destruct (router_acquired_run _ _ _ _ Hacq)
    as (s1 & l0 & Hrun & Hpeers & Hnext & Hl0 & _).
  rewrite (join_run_throw _ _ _ _ _ _ _ _ _ HR HP Hrun Hhas Hsetup).
  cbn [fst snd].
  repeat split; try assumption.
  - rewrite app_assoc. apply last_last.
  - intros t _ Hin.
    assert (Hc : existsb is_close
                   (l0 ++ setup_calls (r_id (rm_router r)) eng
                       ++ [Ack (RError e)]) = true).
    { apply existsb_exists. eexists. split; [exact Hin|reflexivity]. }
    rewrite !existsb_app, Hl0, no_close_in_setup in Hc. discriminate.
Qed.

Lemma failed_join_adds_no_peer_witness :
  setup_outcome engine_no_port = Throw "no port" /\
  last (snd (step a_alone (JoinRoom "sB" "r1" "b" true engine_no_port)))
       (Ack RSuccess) = Ack (RError "no port") /\
  all_peers (fst (step a_alone (JoinRoom "sB" "r1" "b" true engine_no_port))) =
    all_peers a_alone.
Proof.
  split; [reflexivity|].
  destruct (failed_join_adds_no_peer a_alone "sB" "r1" "b" engine_no_port
              _ "no port" eq_refl eq_refl eq_refl eq_refl eq_refl)
    as (Hlast & _ & Hpeers & _).
  split; assumption.
Defined.

(** C2 as stated fails: the first transport [tA1] has been created when
    the creation of the second one throws, and the handler acknowledges
    the error without closing it. *)
Lemma created_transport_left_open :
  created engine_no_port = [a_transport "tA1"] /\
  step initial (JoinRoom "sA" "r1" "a" true engine_no_port) =
    ({| rooms := [("r1", {| rm_router := {| r_id := "R1";
                                            rtpCapabilities := "codecs" |};
                            peers := [] |})];
        next_ref := 0 |},
     [Engine CreateRouter;
      Engine (CreateWebRtcTransport "R1" initialAvailableOutgoingBitrate);
      Engine (SetMaxIncomingBitrate "tA1" minimumAvailableOutgoingBitrate);
      Engine (CreateWebRtcTransport "R1" initialAvailableOutgoingBitrate);
      Ack (RError "no port")]) /\
  ~ In (Engine (TransportClose "tA1"))
       (snd (step initial (JoinRoom "sA" "r1" "a" true engine_no_port))).
Proof.
  repeat split; try reflexivity.
  intros H. vm_compute in H. repeat destruct H as [H|H]; discriminate || contradiction.
Qed.

(** ** Which transport a producer or a consumer is created on *)

(** C3, as amended: the two transports of a peer are kept in one map
    without a direction.  A [produce] or a [consume] whose [transportId]
    is not a key of that map is answered with [{error: 'Transport not
    found'}] and changes nothing; on either transport of the
    peer, a [produce] that the engine accepts creates the producer, and a
    [consume] of a registered producer that the engine accepts creates
    the consumer. *)
Theorem either_transport_accepted (s : state) (socket transportId : string)
  (P : peer) :
  wf s = true ->
  getPeerBySocket s socket = Some P ->
  (JsMap.get transportId (transports P) = None ->
   (forall kind rtpParameters produced,
      step s (Produce socket transportId kind rtpParameters true produced) =
        (s, [Ack (RError "Transport not found")])) /\
   (forall producerId rtpCaps eng,
      step s (Consume socket transportId producerId rtpCaps true eng) =
        (s, [Ack (RError "Transport not found")]))) /\
  (forall t,
     JsMap.get transportId (transports P) = Some t ->
     (forall kind rtpParameters pr,
        let after :=
          step s (Produce socket transportId kind rtpParameters true (Ok pr)) in
        In (Engine (TransportProduce (t_id t) kind rtpParameters)) (snd after) /\
        In (Ack (RProduced (pr_id pr))) (snd after) /\
        getPeerBySocket (fst after) socket =
          Some (set_producers (JsMap.set (pr_id pr) pr) P)) /\
     (forall producerId rtpCaps owner c,
        getPeerByProducerId s producerId = Some owner ->
        let after :=
          step s (Consume socket transportId producerId rtpCaps true
                    {| canConsume := Ok true; consumed := Ok c |}) in
        In (Engine (TransportConsume (t_id t) producerId rtpCaps false))
           (snd after) /\
        In (Ack (RConsumed (c_id c) (c_producerId c) (c_kind c)
                           (c_rtpParameters c))) (snd after) /\
        getPeerBySocket (fst after) socket =
          Some (set_consumers (JsMap.set (c_id c) c) P))).
Proof.
  intros Hwf HP. split.
  - intros Ht. split; intros; unfold_handlers; unfold_monad; simpl;
      now rewrite HP, Ht.
  - intros t Ht. split.
    + intros kind rtpParameters pr after. subst after.
      rewrite (produce_run _ _ _ _ _ _ _ _ HP Ht). simpl.
      repeat split; [now left| |].
      * right. apply in_or_app. right. now left.
      * now apply getPeerBySocket_update_peer.
    + intros producerId rtpCaps owner c Ho after. subst after.
      destruct (getRoomByPeer_found _ _ _ Hwf HP)
        as (roomId & r & HR & HF & HG & _).
      pose proof (first_peer_test _ _ _ Ho) as Hhas. simpl in Hhas.
      unfold JsMap.has in Hhas.
      destruct (JsMap.get producerId (producers owner)) as [pr|] eqn:Hpr;
        [|discriminate].
      rewrite (consume_run _ _ _ _ _ _ _ _ _ _ _ _ HP Ht Ho Hpr HR HF HG).
      simpl. repeat split; auto.
      now apply getPeerBySocket_update_peer.
Qed.

Lemma either_transport_accepted_witness :
  wf a_and_b_producing = true /\
  step a_and_b_producing (Produce "sB" "tA1" "audio" "opus" true (Throw "x")) =
    (a_and_b_producing, [Ack (RError "Transport not found")]) /\
  In (Ack (RProduced "p2"))
     (snd (step a_and_b_producing
             (Produce "sB" "tB1" "audio" "opus" true
                (Ok {| pr_id := "p2"; pr_kind := "audio" |})))) /\
  In (Ack (RConsumed "c1" "p1" "video" "vp8"))
     (snd (step a_and_b_producing
             (Consume "sB" "tB2" "p1" "caps" true
                {| canConsume := Ok true;
                   consumed := Ok (mkConsumer "c1" "p1" "video" "vp8") |}))).
Proof.
  split; [reflexivity|]. split; [|split].
  - destruct (either_transport_accepted a_and_b_producing "sB" "tA1"
                _ eq_refl eq_refl) as [Hno _].
    apply (proj1 (Hno eq_refl)).
  - destruct (either_transport_accepted a_and_b_producing "sB" "tB1"
                _ eq_refl eq_refl) as [_ Hyes].
    apply (proj1 (Hyes _ eq_refl) "audio" "opus"
             {| pr_id := "p2"; pr_kind := "audio" |}).
  - destruct (either_transport_accepted a_and_b_producing "sB" "tB2"
                _ eq_refl eq_refl) as [_ Hyes].
    apply (proj2 (Hyes _ eq_refl) "p1" "caps" _
             (mkConsumer "c1" "p1" "video" "vp8") eq_refl).
Defined.

(** C3 as stated fails: [a] produces on [tA2], the transport that
    [join-room] returned as [recvTransport], and [b] consumes on [tB1], the
    one it returned as [sendTransport]. *)
Lemma produced_on_recv_consumed_on_send :
  (exists caps,
     In (Ack (RJoined (describe (a_transport "tA1"))
                      (describe (a_transport "tA2")) caps))
        (snd (step initial a_joins))) /\
  (let after :=
     step a_and_b
          (Produce "sA" "tA2" "video" "vp8" true
             (Ok {| pr_id := "p1"; pr_kind := "video" |})) in
   snd after =
     [Engine (TransportProduce "tA2" "video" "vp8");
      Emit "sA" "r1" (NewProducer "a" "p1" "video");
      Ack (RProduced "p1")] /\
   option_map producers (getPeerBySocket (fst after) "sA") =
     Some [("p1", {| pr_id := "p1"; pr_kind := "video" |})]) /\
  (exists caps,
     In (Ack (RJoined (describe (a_transport "tB1"))
                      (describe (a_transport "tB2")) caps))
        (snd (step a_alone b_joins))) /\
  (let after :=
     step a_and_b_producing
          (Consume "sB" "tB1" "p1" "caps" true
             {| canConsume := Ok true;
                consumed := Ok (mkConsumer "c1" "p1" "video" "vp8") |}) in
   snd after =
     [Engine (CanConsume "R1" "p1" "caps");
      Engine (TransportConsume "tB1" "p1" "caps" false);
      Ack (RConsumed "c1" "p1" "video" "vp8")] /\
   option_map consumers (getPeerBySocket (fst after) "sB") =
     Some [("c1", mkConsumer "c1" "p1" "video" "vp8")]).
Proof.
  repeat split; try reflexivity; exists "codecs"; vm_compute; auto 10.
Qed.

(** ** [new-producer] and the acknowledgment of [produce] *)

(** C4, as amended: a [produce] that is acknowledged with the id of the
    new producer has done three things in this order: asked the engine
    for the producer, emitted [new-producer] with the peer id, the
    producer id and the kind, and only then acknowledged. *)
Theorem new_producer_then_ack (s : state)
  (socket transportId kind rtpParameters : string) (callback : bool)
  (produced : result producer) (id : string) :
  wf s = true ->
  In (Ack (RProduced id))
     (snd (step s (Produce socket transportId kind rtpParameters callback
                           produced))) ->
  exists P t pr roomId,
    getPeerBySocket s socket = Some P /\
    JsMap.get transportId (transports P) = Some t /\
    produced = Ok pr /\ pr_id pr = id /\
    snd (step s (Produce socket transportId kind rtpParameters callback
                         produced)) =
      [Engine (TransportProduce (t_id t) kind rtpParameters);
       Emit socket roomId (NewProducer (p_id P) id (pr_kind pr));
       Ack (RProduced id)] /\
    before (Emit socket roomId (NewProducer (p_id P) id (pr_kind pr)))
           (Ack (RProduced id))
           (snd (step s (Produce socket transportId kind rtpParameters
                                 callback produced))).
Proof.
  intros Hwf H.
  apply produce_acked in H as (P & t & pr & _ & HP & Ht & Hpr & Hid & ->).
  destruct (getRoomByPeer_found _ _ _ Hwf HP) as (roomId & r & HR & HF & _).
  exists P, t, pr, roomId. unfold new_producer_emission.
  rewrite HR, HF, Hid. simpl. repeat split; auto.
  now exists [Engine (TransportProduce (t_id t) kind rtpParameters)], [], [].
Qed.

Lemma new_producer_then_ack_witness :
  wf a_and_b = true /\
  exists roomId,
    before (Emit "sA" roomId (NewProducer "a" "p1" "video"))
           (Ack (RProduced "p1"))
           (snd (step a_and_b a_produces)).
Proof.
  split; [reflexivity|].
  destruct (new_producer_then_ack a_and_b "sA" "tA1" "video" "vp8" true
              (Ok {| pr_id := "p1"; pr_kind := "video" |}) "p1")
    as (P & t & pr & roomId & HP & _ & Hpr & _ & _ & Hbefore).
  - reflexivity.
  - vm_compute. auto.
  - vm_compute in HP. injection HP as <-. injection Hpr as <-.
    exists roomId. exact Hbefore.
Defined.

(** C4 as stated fails: [a]'s [produce] emits [new-producer] to room [r1],
    where [b] is, before it acknowledges. *)
Lemma new_producer_emitted_before_ack :
  snd (step a_and_b a_produces) =
    [Engine (TransportProduce "tA1" "video" "vp8");
     Emit "sA" "r1" (NewProducer "a" "p1" "video");
     Ack (RProduced "p1")] /\
  ~ before (Ack (RProduced "p1"))
           (Emit "sA" "r1" (NewProducer "a" "p1" "video"))
           (snd (step a_and_b a_produces)).
Proof.
  split; [reflexivity|].
  intros (l1 & l2 & l3 & E). vm_compute in E.
  destruct l1 as [|e1 [|e2 [|e3 [|e4 l1]]]]; try discriminate E.
  inversion E. destruct l2; discriminate.
Qed.

(** ** The order of a teardown *)




(** ** When a room is in the registry *)




(** ** The producers a late joiner is told about *)

(** Where no peer id is used in two rooms the handler returns what it is
    to return, here for [bob] and for the first [ann]. *)
Example get_producers_same_room :
  snd (step two_rooms (GetProducers "s2" true)) = [Ack (RProducers [])] /\
  get_producers_spec two_rooms "s2" = Some [] /\
  snd (step two_rooms (GetProducers "s1" true)) =
    [Ack (RProducers [{| pi_peerId := "bob"; pi_producerId := "pb";
                         pi_kind := "video" |}])] /\
  get_producers_spec two_rooms "s1" =
    Some [{| pi_peerId := "bob"; pi_producerId := "pb"; pi_kind := "video" |}].
Proof. repeat split; reflexivity. Qed.

(** C7 fails on the code: the second [ann], who is in room [r2] with
    [carl], is answered with the producers of room [r1], because
    [getRoomByPeer] looks for the first room that has a peer of that id. *)
Theorem get_producers_of_another_room :
  option_map p_id (getPeerBySocket two_rooms "s3") = Some "ann" /\
  getRoomByPeer two_rooms
    {| p_ref := 2; p_id := "ann"; p_socket := "s3";
       transports := [("t5", a_transport "t5"); ("t6", a_transport "t6")];
       producers := []; consumers := [] |} = Some "r1" /\
  step two_rooms (GetProducers "s3" true) =
    (two_rooms,
     [Ack (RProducers [{| pi_peerId := "bob"; pi_producerId := "pb";
                          pi_kind := "video" |}])]) /\
  get_producers_spec two_rooms "s3" =
    Some [{| pi_peerId := "carl"; pi_producerId := "pc"; pi_kind := "audio" |}].
Proof.
  repeat split; reflexivity.
Qed.

(** ** Consumers are created unpaused *)

Lemma no_paused_call_in_closes (l : list transport) :
  existsb is_paused_call
    (map (fun t => Engine (TransportClose (t_id t))) l) = false.
Proof. induction l; simpl; auto. Qed.

(** C8: no handler ever asks the engine for a paused consumer, and a
    [consume] that is acknowledged with a consumer has asked the engine
    for it with [paused: false]. *)
Theorem consumers_created_unpaused (s : state) :
  (forall e, existsb is_paused_call (snd (step s e)) = false) /\
  (forall socket transportId producerId rtpCaps callback eng id p k r,
     In (Ack (RConsumed id p k r))
        (snd (step s (Consume socket transportId producerId rtpCaps
                              callback eng))) ->
     consumed eng = Ok (mkConsumer id p k r) /\
     exists t,
       In (Engine (TransportConsume t producerId rtpCaps false))
          (snd (step s (Consume socket transportId producerId rtpCaps
                                callback eng)))).
Proof.
  split.
  - intros e. destruct e.
    7: { destruct (disconnect_cases s socket)
           as [->|(P & roomId & r & _ & _ & _ & _ & ->)]; [reflexivity|].
         unfold after_disconnect.
         destruct (JsMap.size _ =? 0)%nat; simpl;
           rewrite existsb_app, no_paused_call_in_closes; reflexivity. }
    all: unfold_handlers; unfold_monad.
    all: simpl; try reflexivity; repeat (branch; simpl; try reflexivity).
  - intros socket transportId producerId rtpCaps callback eng id p k r H.
    apply consume_acked in H
      as (P & t & owner & pr & roomId & roomObj & _ & _ & _ & _ & _ & _ & _
          & _ & Hc & ->).
    split; [assumption|]. exists (t_id t). simpl. auto.
Qed.

Lemma consumers_created_unpaused_witness :
  exists t,
    In (Engine (TransportConsume t "p1" "caps" false))
       (snd (step a_and_b_producing
               (Consume "sB" "tB2" "p1" "caps" true
                  {| canConsume := Ok true;
                     consumed := Ok (mkConsumer "c1" "p1" "video" "vp8") |}))).
Proof.
  refine (proj2 (proj2 (consumers_created_unpaused a_and_b_producing)
                   "sB" "tB2" "p1" "caps" true _ "c1" "p1" "video" "vp8" _)).
  vm_compute. auto.
Defined.

(** ** One socket, several peers *)



(** With two peers on socket [sA], a request that names a transport of
    the second one is answered as if that peer did not exist. *)
Example second_peer_out_of_reach :
  option_map p_id (getPeerBySocket a_twice "sA") = Some "a" /\
  step a_twice (Produce "sA" "tA3" "video" "vp8" true
                  (Ok {| pr_id := "p1"; pr_kind := "video" |})) =
    (a_twice, [Ack (RError "Transport not found")]) /\
  snd (step a_twice (Disconnect "sA")) =
    [Engine (TransportClose "tA1"); Engine (TransportClose "tA2");
     Emit "sA" "r1" (PeerLeft "a"); Engine (RouterClose "R1")].
Proof. repeat split; reflexivity. Qed.

(** * Further properties *)

(** ** Certificates *)

Lemma load_from_first (fs : file_system) (l : list cert_path) :
  match load_from fs l with
  | Some o =>
      exists pre p post,
        l = pre ++ p :: post /\ usable fs p = Some o /\
        Forall (fun q => usable fs q = None) pre
  | None => Forall (fun q => usable fs q = None) l
  end.
Proof.
  induction l as [|p l IH]; simpl; [constructor|].
  assert (Hstep : match usable fs p with
                  | Some o => Some o
                  | None => load_from fs l
                  end =
                  match truthy (cp_cert p), truthy (cp_key p) with
                  | Some cert, Some key =>
                      match read_pair fs cert key with
                      | Some options => Some options
                      | None => load_from fs l
                      end
                  | _, _ => load_from fs l
                  end).
  { unfold usable. destruct (truthy (cp_cert p)); [|reflexivity].
    destruct (truthy (cp_key p)); reflexivity. }
  rewrite <- Hstep. destruct (usable fs p) as [o|] eqn:Hp.
  - exists [], p, l. auto.
  - destruct (load_from fs l) as [o|].
    + destruct IH as (pre & q & post & -> & Hq & Hpre).
      exists (p :: pre), q, post. auto.
    + auto.
Qed.

Lemma usable_content (fs : file_system) (p : cert_path) (o : ssl_options) :
  usable fs p = Some o ->
  content_of fs (cp_cert p) = Some (ssl_cert o) /\
  content_of fs (cp_key p) = Some (ssl_key o).
Proof.
  unfold usable, content_of, read_pair, existsSync, readFileSync.
  destruct (truthy (cp_cert p)) as [c|]; [|discriminate].
  destruct (truthy (cp_key p)) as [k|]; [|discriminate].
  destruct (fs c) as [[cc|]|]; simpl; try discriminate;
    destruct (fs k) as [[kk|]|]; simpl; try discriminate.
  now intros [= <-].
Qed.

(** X1: [loadSSLCertificates] returns the contents of the two files of
    one and the same candidate, namely of the first candidate, in the
    order [cert.pem]/[key.pem], [fullchain.pem]/[privkey.pem],
    [SSL_CERT_PATH]/[SSL_KEY_PATH], of which both files exist and can be
    read; it returns [null] exactly when there is no such candidate. *)
Theorem certificates_of_first_usable_pair (fs : file_system)
  (join : list string -> string) (dirname : string) (env : environment) :
  (forall o,
     loadSSLCertificates fs join dirname env = Some o ->
     exists pre p post,
       certPaths join dirname env = pre ++ p :: post /\
       content_of fs (cp_cert p) = Some (ssl_cert o) /\
       content_of fs (cp_key p) = Some (ssl_key o) /\
       Forall (fun q => usable fs q = None) pre) /\
  (loadSSLCertificates fs join dirname env = None <->
   Forall (fun q => usable fs q = None) (certPaths join dirname env)).
Proof.
  unfold loadSSLCertificates.
  pose proof (load_from_first fs (certPaths join dirname env)) as H.
  split.
  - intros o Ho. rewrite Ho in H.
    destruct H as (pre & p & post & E & Hp & Hpre).
    exists pre, p, post. destruct (usable_content _ _ _ Hp). auto.
  - split.
    + intros Hn. now rewrite Hn in H.
    + intros Hall. destruct (load_from fs (certPaths join dirname env)) as [o|];
        [|reflexivity].
      destruct H as (pre & p & post & E & Hp & _).
      rewrite Forall_forall in Hall. rewrite Hall in Hp; [discriminate|].
      rewrite E. apply in_or_app. right. now left.
Qed.

Lemma certificates_of_first_usable_pair_witness :
  loadSSLCertificates fs_fullchain_only join_slash "/app" env_https =
    Some {| ssl_cert := "CHAIN"; ssl_key := "PRIVATE" |} /\
  exists pre p post,
    certPaths join_slash "/app" env_https = pre ++ p :: post /\
    content_of fs_fullchain_only (cp_cert p) = Some "CHAIN" /\
    content_of fs_fullchain_only (cp_key p) = Some "PRIVATE" /\
    Forall (fun q => usable fs_fullchain_only q = None) pre.
Proof.
  split; [reflexivity|].
  exact (proj1 (certificates_of_first_usable_pair fs_fullchain_only join_slash
                  "/app" env_https) _ eq_refl).
Defined.

(** ** The kind of server *)



(** ** The workers *)

Lemma createWorkers_loop_spec (created : nat -> result string) (n i : nat)
  (workers : list string) :
  match createWorkers_loop created i n workers with
  | (Ok _, ws, l) =>
      (forall j, j < n -> exists w, created (i + j) = Ok w) /\
      length ws = length workers + n /\
      l = map CreateWorker (seq i n)
  | (Throw e, ws, l) =>
      exists k, k < n /\ created (i + k) = Throw e /\
        (forall j, j < k -> exists w, created (i + j) = Ok w) /\
        length ws = length workers + k /\
        l = map CreateWorker (seq i (S k))
  end.
Proof.
  revert i workers. induction n as [|n IH]; intros i workers; simpl.
  - repeat split; [intros j Hj; lia|lia].
  - destruct (created i) as [w|e] eqn:Hi.
    + specialize (IH (S i) (workers ++ [w])).
      destruct (createWorkers_loop created (S i) n (workers ++ [w]))
        as [[[u|e] ws] l].
      * destruct IH as (Hall & Hlen & ->). rewrite length_app in Hlen.
        simpl in Hlen. repeat split; [|lia].
        intros [|j] Hj; [rewrite Nat.add_0_r; eauto|].
        destruct (Hall j) as [w' Hw']; [lia|].
        exists w'. now rewrite <- Hw', Nat.add_succ_r.
      * destruct IH as (k & Hk & Hthrow & Hall & Hlen & ->).
        rewrite length_app in Hlen. simpl in Hlen.
        exists (S k). repeat split; [lia| | |lia].
        -- now rewrite <- Hthrow, Nat.add_succ_r.
        -- intros [|j] Hj; [rewrite Nat.add_0_r; eauto|].
           destruct (Hall j) as [w' Hw']; [lia|].
           exists w'. now rewrite <- Hw', Nat.add_succ_r.
    + exists 0. rewrite Nat.add_0_r. repeat split; [lia|assumption| |lia].
      intros j Hj. lia.
Qed.

(** X3: [startServer] listens exactly when every one of the [numWorkers]
    workers has been created, after the last creation and with all of
    them in [workers]; when a creation throws, no further worker is
    created, the server never listens, and the process exits with code 1. *)
Theorem server_listens_with_all_workers (created : nat -> result string)
  (env : environment) :
  let workers := fst (startServer created env) in
  let l := snd (startServer created env) in
  (existsb is_listen l = true <->
   forall i, i < numWorkers -> exists w, created i = Ok w) /\
  (existsb is_listen l = true ->
   length workers = numWorkers /\
   l = map CreateWorker (seq 0 numWorkers) ++ [Listen (PORT env) "0.0.0.0"]) /\
  (existsb is_listen l = false ->
   exists k e,
     k < numWorkers /\ created k = Throw e /\ length workers = k /\
     l = map CreateWorker (seq 0 (S k)) ++ [Exit 1%N]).
Proof.
  intros workers l. subst workers l. unfold startServer, createWorkers.
  pose proof (createWorkers_loop_spec created numWorkers 0 []) as H.
  assert (Hno : forall n k, existsb is_listen (map CreateWorker (seq k n)) = false).
  { induction n; simpl; auto. }
  destruct (createWorkers_loop created 0 numWorkers []) as [[[u|e] ws] l];
    cbn [fst snd length Nat.add] in *.
  - destruct H as (Hall & Hlen & ->).
    rewrite existsb_app, Hno. cbn [existsb is_listen orb].
    repeat split; auto; discriminate.
  - destruct H as (k & Hk & Hthrow & Hall & Hlen & ->).
    rewrite existsb_app, Hno. cbn [existsb is_listen orb].
    repeat split; try discriminate.
    + intros Hok. destruct (Hok k Hk) as [w Hw]. congruence.
    + intros _. now exists k, e.
Qed.

Lemma server_listens_with_all_workers_witness :
  startServer (fun i => Ok (if Nat.eqb i 0 then "w0" else "w1")) env_https =
    (["w0"; "w1"],
     [CreateWorker 0; CreateWorker 1; Listen (inr 3004%N) "0.0.0.0"]) /\
  length (fst (startServer (fun i => Ok (if Nat.eqb i 0 then "w0" else "w1"))
                           env_https)) = numWorkers.
Proof.
  split; [reflexivity|].
  apply (proj1 (proj2 (server_listens_with_all_workers
                         (fun i => Ok (if Nat.eqb i 0 then "w0" else "w1"))
                         env_https))).
  reflexivity.
Defined.

(** ** Acknowledgments *)




(** ** Requests that fail *)

(** X5: a [connect-transport], [produce], [consume], [resume-consumer] or
    [get-producers] that is answered with an error has left the registry
    as it was and has emitted nothing; [connect-transport],
    [resume-consumer] and [get-producers] never change the registry and
    never emit, whatever the answer. *)
Theorem failed_requests_change_nothing (s : state) (e : event) :
  after_joining e = true ->
  (existsb is_error (snd (step s e)) = true ->
   fst (step s e) = s /\ existsb is_emit (snd (step s e)) = false) /\
  (read_only e = true ->
   fst (step s e) = s /\ existsb is_emit (snd (step s e)) = false).
Proof.
  intros He. destruct e; try discriminate He; clear He; split; intros H;
    try discriminate H; revert H;
    unfold_handlers; unfold_monad; simpl;
    repeat (branch; simpl; try discriminate; auto).
Qed.

Lemma failed_requests_change_nothing_witness :
  fst (step a_and_b (Produce "sA" "tA1" "video" "vp8" true (Throw "bad rtp")))
  = a_and_b /\
  existsb is_emit
    (snd (step a_and_b (Produce "sA" "tA1" "video" "vp8" true (Throw "bad rtp"))))
  = false.
Proof.
  exact (proj1 (failed_requests_change_nothing a_and_b
                  (Produce "sA" "tA1" "video" "vp8" true (Throw "bad rtp"))
                  eq_refl) eq_refl).
Defined.

(** ** Joining *)

(** X6: [join-room] refuses, with a reply that says why and without
    touching the registry, a request without room id or peer id (before
    any engine call), a peer id that is already in the room (before any
    engine call), and a room for which the engine cannot create a router
    (the room is not registered). *)
Theorem join_refusals (s : state) (socket roomId peerId : string)
  (eng : join_engine) :
  (falsy roomId = true \/ falsy peerId = true ->
   step s (JoinRoom socket roomId peerId true eng) =
     (s, [Ack (RError "roomId and peerId are required")])) /\
  (forall r,
     falsy roomId = false -> falsy peerId = false ->
     JsMap.get roomId (rooms s) = Some r ->
     JsMap.has peerId (peers r) = true ->
     step s (JoinRoom socket roomId peerId true eng) =
       (s, [Ack (RError "Peer already exists in room")])) /\
  (forall message,
     falsy roomId = false -> falsy peerId = false ->
     JsMap.get roomId (rooms s) = None ->
     createRouter eng = Throw message ->
     step s (JoinRoom socket roomId peerId true eng) =
       (s, [Engine CreateRouter; Ack (RError message)])).
Proof.
  split; [|split].
  - intros H. unfold_handlers; unfold_monad; simpl.
    destruct H as [-> | ->]; [reflexivity|].
    now rewrite orb_true_r.
  - intros r HR HP Hget Hhas.
    unfold step, run, handler, join_room, try_catch. simpl.
    rewrite HR, HP. simpl. unfold bind at 1.
    rewrite getOrCreateRoom_run, Hget, Hhas. reflexivity.
  - intros message HR HP Hget Hthrow.
    unfold step, run, handler, join_room, try_catch. simpl.
    rewrite HR, HP. simpl. unfold bind at 1.
    rewrite getOrCreateRoom_run, Hget, Hthrow. reflexivity.
Qed.

Lemma join_refusals_witness :
  step a_and_b (JoinRoom "sC" "r1" "" true (engine_ok "R" "t1" "t2")) =
    (a_and_b, [Ack (RError "roomId and peerId are required")]) /\
  step a_and_b (JoinRoom "sC" "r1" "b" true (engine_ok "R" "t1" "t2")) =
    (a_and_b, [Ack (RError "Peer already exists in room")]).
Proof.
  destruct (join_refusals a_and_b "sC" "r1" "" (engine_ok "R" "t1" "t2"))
    as (H1 & _).
  destruct (join_refusals a_and_b "sC" "r1" "b" (engine_ok "R" "t1" "t2"))
    as (_ & H2 & _).
  split.
  - apply H1. now right.
  - exact (H2 _ eq_refl eq_refl eq_refl eq_refl).
Defined.






(** ** Joining and leaving *)



(** ** Producing, consuming and resuming *)

(** X10: the consumer that a [consume] has acknowledged can be resumed by
    the same socket under the id of the acknowledgment: the engine is asked
    to resume that consumer, the reply is [success] or the engine's error,
    and the registry stays as it is; a [resume-consumer] for an id that is
    not among the consumers of the requesting peer is answered with
    'Consumer not found' without any engine call. *)
Theorem consumed_then_resumed (s : state)
  (socket transportId producerId rtpCaps : string) (callback : bool)
  (eng : consume_engine) (id p k r : string) :
  In (Ack (RConsumed id p k r))
     (snd (step s (Consume socket transportId producerId rtpCaps callback eng))) ->
  let s' :=
    fst (step s (Consume socket transportId producerId rtpCaps callback eng)) in
  step s' (ResumeConsumer socket id true (Ok tt)) =
    (s', [Engine (ConsumerResume id); Ack RSuccess]) /\
  (forall message,
     step s' (ResumeConsumer socket id true (Throw message)) =
       (s', [Engine (ConsumerResume id); Ack (RError message)])) /\
  (forall P other resumed,
     getPeerBySocket s' socket = Some P ->
     JsMap.has other (consumers P) = false ->
     step s' (ResumeConsumer socket other true resumed) =
       (s', [Ack (RError "Consumer not found")])).
Proof.
  intros Hack.
  destruct (consume_acked _ _ _ _ _ _ _ _ _ _ _ Hack)
    as (P & t & owner & pr & roomId & roomObj & _ & HP & _ & _ & _ & _ & _ & _
        & _ & Hstep).
  rewrite Hstep. cbn [fst].
  pose proof (getPeerBySocket_update_peer s socket P
                (set_consumers (JsMap.set id (mkConsumer id p k r)))
                (fun q => eq_refl) HP) as HP'.
  repeat split.
  - unfold_handlers; unfold_monad. simpl. rewrite HP'. simpl.
    now rewrite get_set_same.
  - intros message. unfold_handlers; unfold_monad. simpl. rewrite HP'. simpl.
    now rewrite get_set_same.
  - intros Q other resumed HQ Hno.
    unfold_handlers; unfold_monad. simpl. rewrite HQ.
    unfold JsMap.has in Hno.
    destruct (JsMap.get other (consumers Q)); [discriminate|reflexivity].
Qed.

Lemma consumed_then_resumed_witness :
  step (fst (step a_and_b_producing
               (Consume "sB" "tB2" "p1" "caps" true
                  {| canConsume := Ok true;
                     consumed := Ok (mkConsumer "c1" "p1" "video" "rtp") |})))
       (ResumeConsumer "sB" "c1" true (Ok tt)) =
  (fst (step a_and_b_producing
          (Consume "sB" "tB2" "p1" "caps" true
             {| canConsume := Ok true;
                consumed := Ok (mkConsumer "c1" "p1" "video" "rtp") |})),
   [Engine (ConsumerResume "c1"); Ack RSuccess]).
Proof.
  refine (proj1 (consumed_then_resumed a_and_b_producing "sB" "tB2" "p1" "caps"
                   true
                   {| canConsume := Ok true;
                      consumed := Ok (mkConsumer "c1" "p1" "video" "rtp") |}
                   "c1" "p1" "video" "rtp" _)).
  vm_compute. tauto.
Defined.



(** ** Listing producers *)

(** X12: in a well-formed registry a [get-producers] of a socket that owns
    a peer never fails: the room that [getRoomByPeer] finds for the peer is
    in the registry, and the reply lists exactly the producers (with their
    kind) of the entries of that room whose key is not the peer's id, each
    under the key of its entry; the registry is left as it is. *)
Theorem get_producers_lists (s : state) (socket : string) (P : peer) :
  wf s = true ->
  getPeerBySocket s socket = Some P ->
  exists roomId r,
    getRoomByPeer s P = Some roomId /\
    JsMap.get roomId (rooms s) = Some r /\
    step s (GetProducers socket true) =
      (s, [Ack (RProducers (list_producers (p_id P) (peers r)))]) /\
    forall info,
      In info (list_producers (p_id P) (peers r)) <->
      exists q pr,
        JsMap.get (pi_peerId info) (peers r) = Some q /\
        pi_peerId info <> p_id P /\
        In (pi_producerId info, pr) (producers q) /\
        pi_kind info = pr_kind pr.
Proof.
  intros Hwf HP.
  destruct (getRoomByPeer_found s socket P Hwf HP)
    as (roomId & r & HR & HF & HG & _).
  exists roomId, r. repeat split; try assumption.
  - unfold_handlers; unfold_monad. simpl. now rewrite HP, HR, HF, HG.
  - intros H. apply In_list_producers in H.
    destruct H as (q & pr & Hin & H). exists q, pr. split; [|exact H].
    destruct (wf_room s roomId r Hwf (get_In _ _ _ HG)) as (_ & Hnd & _).
    now apply In_get_NoDup.
  - intros (q & pr & Hq & H). apply In_list_producers.
    exists q, pr. split; [|exact H]. now apply get_In.
Qed.

Lemma get_producers_lists_witness :
  step a_and_b_producing (GetProducers "sB" true) =
    (a_and_b_producing,
     [Ack (RProducers [{| pi_peerId := "a"; pi_producerId := "p1";
                          pi_kind := "video" |}])]).
Proof.
  destruct (get_producers_lists a_and_b_producing "sB" _ eq_refl eq_refl)
    as (roomId & r & HR & HG & Hstep & _).
  vm_compute in HR. injection HR as <-.
  vm_compute in HG. injection HG as <-.
  exact Hstep.
Defined.

(** X13: in a well-formed registry in which no two peers share a peer id,
    also across rooms, the room that [getRoomByPeer] finds for the peer of
    a socket is the room that holds that very peer, and [get-producers]
    answers with the producers of the other peers of the peer's own
    room. *)
Theorem own_room_with_unique_ids (s : state) (socket : string) (P : peer) :
  wf s = true -> refs_ok s -> unique_ids s = true ->
  getPeerBySocket s socket = Some P ->
  exists roomId r,
    getRoomByPeer s P = Some roomId /\
    JsMap.get roomId (rooms s) = Some r /\
    JsMap.get (p_id P) (peers r) = Some P /\
    step s (GetProducers socket true) =
      (s, [Ack (RProducers (producers_of_others P r))]).
Proof.
  intros Hwf Hrefs Hids HP.
  destruct (getRoomByPeer_found s socket P Hwf HP)
    as (roomId & r & HR & HF & HG & Hhas).
  exists roomId, r.
  assert (Hown : JsMap.get (p_id P) (peers r) = Some P).
  { destruct (has_get _ _ Hhas) as [Q HQ]. rewrite HQ. f_equal.
    pose proof (get_In _ _ _ HQ) as HinQ.
    destruct (wf_room s roomId r Hwf (get_In _ _ _ HG)) as (_ & _ & Hid).
    apply (NoDup_map_inj p_id (all_peers s)).
    - now apply distinct_NoDup.
    - unfold all_peers, peers_of. apply in_flat_map. exists r. split.
      + apply in_map_iff. exists (roomId, r). split; [reflexivity|].
        now apply get_In.
      + apply in_map_iff. now exists (p_id P, Q).
    - rewrite getPeerBySocket_all_peers in HP.
      now apply first_peer_Some in HP.
    - now apply Hid. }
  repeat split; try assumption.
  now apply (get_producers_own_room s socket P roomId r).
Qed.

Lemma own_room_with_unique_ids_witness :
  step a_and_b_producing (GetProducers "sA" true) =
    (a_and_b_producing, [Ack (RProducers [])]).
Proof.
  destruct (own_room_with_unique_ids a_and_b_producing "sA" _ eq_refl
              (reachable_refs_ok _ (proj1 (proj2 (proj2 (proj2
                 sessions_reachable)))))
              eq_refl eq_refl)
    as (roomId & r & HR & HG & _ & Hstep).
  vm_compute in HR. injection HR as <-.
  vm_compute in HG. injection HG as <-.
  exact Hstep.
Defined.

(** ** After a disconnect *)

(** X14: when the room that [getRoomByPeer] finds for the peer of a
    disconnecting socket holds that very peer, the disconnect removes it:
    no peer of the registry is that peer object any more, every other
    peer is still there, and the [transportclose] callbacks that the
    engine then runs for the producers and consumers of the peer that has
    left close them and leave the registry as it is. *)
Theorem callbacks_after_disconnect (s : state) (socket : string) (P : peer)
  (roomId : string) (r : room) :
  wf s = true -> refs_ok s ->
  getPeerBySocket s socket = Some P ->
  getRoomByPeer s P = Some roomId ->
  JsMap.get roomId (rooms s) = Some r ->
  JsMap.get (p_id P) (peers r) = Some P ->
  let s' := fst (step s (Disconnect socket)) in
  Forall (fun q => p_ref q <> p_ref P) (all_peers s') /\
  (forall q, In q (all_peers s) -> p_ref q <> p_ref P -> In q (all_peers s')) /\
  (forall producerId,
     step s' (ProducerTransportClose (p_ref P) producerId) =
       (s', [Engine (ProducerClose producerId)])) /\
  (forall consumerId,
     step s' (ConsumerTransportClose (p_ref P) consumerId) =
       (s', [Engine (ConsumerClose consumerId)])).
Proof.
  intros Hwf Hrefs HP HR HG Hown.
  assert (HF : falsy roomId = false)
    by (now destruct (wf_room s roomId r Hwf (get_In _ _ _ HG))).
  rewrite (disconnect_run s socket P roomId r HP HR HF HG).
  pose proof (disconnect_forgets_ref s socket P roomId r Hwf Hrefs HG Hown)
    as Hgone.
  cbv zeta. split; [exact Hgone|]. split; [|split].
  - intros q Hq Hne.
    destruct (get_split _ _ _ HG) as (pre & post & E & Hn1).
    pose proof (wf_rooms _ Hwf) as Hkeys. rewrite E in Hkeys.
    destruct (NoDup_keys_split _ _ _ _ Hkeys) as [_ Hn2].
    unfold all_peers in *.
    rewrite (rooms_after_disconnect s socket P roomId r pre post E Hn1 Hn2).
    rewrite E, peers_of_split in Hq.
    rewrite !in_app_iff in *. destruct Hq as [Hq|[Hq|Hq]]; auto.
    right; left.
    destruct (wf_room s roomId r Hwf (get_In _ _ _ HG)) as (_ & Hpk & _).
    destruct (get_split _ _ _ Hown) as (m1 & m2 & Em & Hm1).
    rewrite Em in Hpk.
    destruct (NoDup_keys_split _ _ _ _ Hpk) as [_ Hm2].
    rewrite Em in *. rewrite delete_at by assumption.
    rewrite values_app in *. simpl in Hq. rewrite in_app_iff in *.
    destruct Hq as [Hq|[Hq|Hq]]; auto. now subst q.
  - intros producerId. unfold_handlers; unfold_monad. simpl.
    now rewrite update_peer_fresh.
  - intros consumerId. unfold_handlers; unfold_monad. simpl.
    now rewrite update_peer_fresh.
Qed.

Lemma callbacks_after_disconnect_witness :
  step (fst (step a_and_b_producing (Disconnect "sA")))
       (ProducerTransportClose 0 "p1") =
  (fst (step a_and_b_producing (Disconnect "sA")),
   [Engine (ProducerClose "p1")]).
Proof.
  exact (proj1 (proj2 (proj2
           (callbacks_after_disconnect a_and_b_producing "sA" _ "r1" _
              eq_refl
              (reachable_refs_ok _ (proj1 (proj2 (proj2 (proj2
                 sessions_reachable)))))
              eq_refl eq_refl eq_refl eq_refl))) "p1").
Defined.

(** ** Peer objects *)

(** X15: every peer of a registry that the handlers can build has one or
    two transports (those of its join), and its transports, producers and
    consumers are stored under their own ids. *)
Theorem peers_of_reachable_registries (s : state) (p : peer) :
  reachable s -> In p (all_peers s) ->
  (JsMap.size (transports p) = 1 \/ JsMap.size (transports p) = 2) /\
  (forall k t, JsMap.get k (transports p) = Some t -> t_id t = k) /\
  (forall k pr, JsMap.get k (producers p) = Some pr -> pr_id pr = k) /\
  (forall k c, JsMap.get k (consumers p) = Some c -> c_id c = k).
Proof.
  intros Hs Hp. pose proof (reachable_peers_ok s Hs) as Hok.
  unfold peers_ok in Hok. rewrite forallb_forall in Hok.
  specialize (Hok p Hp). unfold peer_ok in Hok.
  rewrite !andb_true_iff, !keyed_by_id_iff in Hok.
  destruct Hok as (((((_ & Ht) & (_ & Hpr)) & (_ & Hc)) & Hge) & Hle).
  apply Nat.leb_le in Hge, Hle.
  repeat split.
  - lia.
  - intros k t H. apply Ht. now apply get_In.
  - intros k pr H. apply Hpr. now apply get_In.
  - intros k c H. apply Hc. now apply get_In.
Qed.

Lemma peers_of_reachable_registries_witness :
  JsMap.size (transports peer_a) = 1 \/ JsMap.size (transports peer_a) = 2.
Proof.
  refine (proj1 (peers_of_reachable_registries a_and_b_producing peer_a
                   (proj1 (proj2 (proj2 (proj2 sessions_reachable)))) _)).
  vm_compute. tauto.
Defined.



(** X17: a peer object keeps its id, its socket and its transports for as
    long as it is in the registry: every peer of the registry after an
    event either was there before with the same id, socket and transports,
    or is the new peer of a [join-room], with the socket and the peer id of
    that request and without producers and consumers. *)
Theorem peer_objects_are_stable (s : state) (e : event) (p' : peer) :
  reachable s ->
  In p' (all_peers (fst (step s e))) ->
  (exists p, In p (all_peers s) /\ p_ref p' = p_ref p /\ p_id p' = p_id p /\
             p_socket p' = p_socket p /\ transports p' = transports p) \/
  (exists socket roomId callback eng,
     e = JoinRoom socket roomId (p_id p') callback eng /\
     p_socket p' = socket /\ p_ref p' = next_ref s /\
     producers p' = [] /\ consumers p' = []).
Proof.
  intros Hs. pose proof (reachable_wf s Hs) as Hwf.
  pose proof (reachable_refs_ok s Hs) as Hrefs.
  assert (Hsame : forall q, In q (all_peers s) ->
            exists p, In p (all_peers s) /\ p_ref q = p_ref p /\
                      p_id q = p_id p /\ p_socket q = p_socket p /\
                      transports q = transports p)
    by (intros q Hq; now exists q).
  destruct e.
  1: { destruct (join_cases s socket roomId peerId callback eng)
         as [->|[(rt & e & _ & HR & _ & Hget & Hrt & _ & ->)
                |(r & s1 & l0 & st & rt' & _ & HR & _ & Hrun & Hhas & _ & ->)]].
       - intros H. left. now apply Hsame.
       - unfold all_peers at 1. simpl. rewrite all_peers_new_room.
         intros H. left. now apply Hsame.
       - destruct (wf_getOrCreateRoom _ _ _ _ _ _ HR Hrun Hwf) as [_ Hget1].
         destruct (getOrCreateRoom_peers _ _ _ _ _ _ Hrun) as [Hall Hnext].
         destruct (get_split _ _ _ Hget1) as (pre & post & E & Hn).
         assert (Hold : all_peers s =
                   peers_of pre ++ JsMap.values (peers r) ++ peers_of post).
         { rewrite <- Hall. unfold all_peers. now rewrite E, peers_of_split. }
         unfold all_peers at 1.
         rewrite (rooms_after_join s1 socket roomId peerId st rt' r pre post
                    (refs_ok_same s s1 Hall Hnext Hrefs) E Hn Hhas).
         rewrite peers_of_split. cbn [peers]. rewrite values_app. simpl.
         rewrite !in_app_iff. simpl.
         intros [H|[[H|[H|[]]]|H]].
         + left. apply Hsame. rewrite Hold, !in_app_iff. auto.
         + left. apply Hsame. rewrite Hold, !in_app_iff. auto.
         + right. subst p'. simpl. exists socket, roomId, callback, eng.
           now rewrite Hnext.
         + left. apply Hsame. rewrite Hold, !in_app_iff. auto. }
  6: { destruct (disconnect_cases s socket)
         as [->|(P & roomId & r & _ & _ & _ & HG & ->)];
         [intros H; left; now apply Hsame|].
       destruct (get_split _ _ _ HG) as (pre & post & E & Hn1).
       pose proof (wf_rooms _ Hwf) as Hk. rewrite E in Hk.
       destruct (NoDup_keys_split _ _ _ _ Hk) as [_ Hn2].
       unfold all_peers at 1.
       rewrite (rooms_after_disconnect s socket P roomId r pre post E Hn1 Hn2).
       intros H. left. apply Hsame. unfold all_peers.
       rewrite E, peers_of_split. rewrite !in_app_iff in *.
       destruct H as [H|[H|H]]; auto. right; left.
       apply In_values in H as [k H]. apply In_delete in H as [H _].
       unfold JsMap.values. apply in_map_iff. now exists (k, p'). }
  all: match goal with
       | |- In _ (all_peers (fst (step ?s0 ?e))) -> _ =>
           destruct (request_cases_ok s0 e I) as [E|(ref0 & f & [Hid Hf] & E)];
           rewrite E; [intros H; left; now apply Hsame|]
       end.
  all: rewrite all_peers_update_peer; intros H; apply in_map_iff in H;
    destruct H as (p & <- & Hp); left; exists p; split; [exact Hp|];
    destruct (p_ref p =? ref0)%nat; [|now repeat split];
    destruct (Hid p) as (H1 & H2 & H3); destruct (Hf p) as [H4 _];
    now repeat split.
Qed.

Lemma peer_objects_are_stable_witness :
  (exists p, In p (all_peers a_and_b) /\ p_ref peer_a = p_ref p /\
             p_id peer_a = p_id p /\ p_socket peer_a = p_socket p /\
             transports peer_a = transports p) \/
  (exists socket roomId callback eng,
     a_produces = JoinRoom socket roomId (p_id peer_a) callback eng /\
     p_socket peer_a = socket /\ p_ref peer_a = next_ref a_and_b /\
     producers peer_a = [] /\ consumers peer_a = []).
Proof.
  refine (peer_objects_are_stable a_and_b a_produces peer_a
            (proj1 (proj2 (proj2 sessions_reachable))) _).
  vm_compute. tauto.
Defined.

(** ** The registry *)

(** X18: in every registry that the handlers can build, room ids are not
    empty and not repeated, the peers of a room are stored under their own
    peer ids, no peer object is in the registry twice, and the room lookup
    of the handlers succeeds for the peer of every socket: the replies
    'Room not found' and 'Room object not found' are never produced by
    the lookups. *)
Theorem registry_invariant (s : state) :
  reachable s ->
  NoDup (JsMap.keys (rooms s)) /\
  (forall roomId r,
     JsMap.get roomId (rooms s) = Some r ->
     falsy roomId = false /\
     NoDup (JsMap.keys (peers r)) /\
     (forall k p, JsMap.get k (peers r) = Some p -> p_id p = k)) /\
  NoDup (map p_ref (all_peers s)) /\
  Forall (fun p => p_ref p < next_ref s) (all_peers s) /\
  (forall socket P,
     getPeerBySocket s socket = Some P ->
     exists roomId r,
       getRoomByPeer s P = Some roomId /\ falsy roomId = false /\
       JsMap.get roomId (rooms s) = Some r).
Proof.
  intros Hs. pose proof (reachable_wf s Hs) as Hwf.
  destruct (reachable_refs_ok s Hs) as [Hnd Hlt].
  split; [now apply wf_rooms|]. split; [|split; [exact Hnd|split; [exact Hlt|]]].
  - intros roomId r HG.
    destruct (wf_room s roomId r Hwf (get_In _ _ _ HG)) as (HF & Hk & Hid).
    repeat split; try assumption.
    intros k p Hp. apply Hid. now apply get_In.
  - intros socket P HP.
    destruct (getRoomByPeer_found s socket P Hwf HP)
      as (roomId & r & HR & HF & HG & _).
    now exists roomId, r.
Qed.

Lemma registry_invariant_witness :
  NoDup (JsMap.keys (rooms two_rooms)) /\
  NoDup (map p_ref (all_peers two_rooms)).
Proof.
  destruct (registry_invariant two_rooms
              (proj2 (proj2 (proj2 (proj2 (proj2 sessions_reachable))))))
    as (H1 & _ & H2 & _).
  exact (conj H1 H2).
Defined.
